(** * rustc-npm: the toolchain installer, embedded and verified

    The installer script (its last revision: [setupIndependentRust],
    [downloadAndExtract], [run]) is embedded as state-passing functions over
    an explicit model of what it touches: the directory tree below the
    script's own directory, the console, the network and the [tar] utility.
    Its first revision, [download], and the assembler of an intermediate
    revision are embedded beside it. *)

From Stdlib Require Import ZArith String Ascii List.
From Stdlib.Strings Require Import Byte.
From stdpp Require Import base option list strings gmap fin_maps.

Local Open Scope string_scope.
Local Open Scope list_scope.
Local Open Scope Z_scope.

(** ** Paths

    Every path the script builds is [path.join(__dirname, ...)]; a path is
    modelled by its components below [__dirname]. *)

Abbreviation path := (list string).

(** [path.join] drops empty segments. *)
Definition join (segments : list string) : path :=
  List.filter (fun c => negb (String.eqb c "")) segments.

(** [under p q] is the remainder of [q] below [p], when [q] is [p] or lies
    inside it. *)
Fixpoint under (p q : path) : option path :=
  match p, q with
  | [], _ => Some q
  | c :: p', d :: q' => if String.eqb c d then under p' q' else None
  | _ :: _, [] => None
  end.

Definition is_prefix (p q : path) : bool :=
  match under p q with Some _ => true | None => false end.

Definition parent (p : path) : path := removelast p.

(** ** The file system

    A finite map from paths to entries.  Directory permission bits, owners,
    links and time stamps are not tracked. *)

Inductive entry : Type :=
| EFile (mode : Z) (content : list byte)
| EDir.

Abbreviation FS := (gmap (list string) entry).

Inductive errno : Type :=
| ENOENT | EEXIST | ENOTDIR | EISDIR
| ERR_FS_CP_EINVAL          (* copy onto itself or into its own subtree *)
| ERR_FS_CP_KIND.           (* ERR_FS_CP_DIR_TO_NON_DIR / ERR_FS_CP_NON_DIR_TO_DIR *)

Inductive sys (A : Type) : Type :=
| Done (a : A)
| Fail (e : errno).
Arguments Done {A} a.
Arguments Fail {A} e.

(** [__dirname] itself always exists and is a directory. *)
Definition stat (fs : FS) (p : path) : option entry :=
  match p with
  | [] => Some EDir
  | _ => fs !! p
  end.

Definition exists_at (fs : FS) (p : path) : bool :=
  match stat fs p with Some _ => true | None => false end.

Definition is_dir (fs : FS) (p : path) : bool :=
  match stat fs p with Some EDir => true | _ => false end.

Definition same_kind (a b : entry) : bool :=
  match a, b with
  | EFile _ _, EFile _ _ => true
  | EDir, EDir => true
  | _, _ => false
  end.

(** [rmSync(p, { recursive: true, force: true })]: [p] and all below it go;
    a missing [p] is not an error. *)
Definition rm_rf (p : path) (fs : FS) : FS :=
  filter (fun kv => under p kv.1 = None) fs.

(** [mkdirSync(p, { recursive: true })], walking down from [base]. *)
Fixpoint mkdirp_from (base rest : path) (fs : FS) : sys FS :=
  match rest with
  | [] => Done fs
  | c :: rest' =>
      let q := base ++ [c] in
      match fs !! q with
      | None => mkdirp_from q rest' (<[q := EDir]> fs)
      | Some EDir => mkdirp_from q rest' fs
      | Some (EFile _ _) => Fail (match rest' with [] => EEXIST | _ => ENOTDIR end)
      end
  end.

Definition mkdirp (p : path) (fs : FS) : sys FS := mkdirp_from [] p fs.

(** [mkdirSync(p)] without options. *)
Definition mkdir (p : path) (fs : FS) : sys FS :=
  match stat fs p with
  | Some _ => Fail EEXIST
  | None => if is_dir fs (parent p) then Done (<[p := EDir]> fs) else Fail ENOENT
  end.

(** What [mkdirp p] leaves at [q]. *)
Definition made (p : path) (fs : FS) (q : path) : option entry :=
  match q with
  | [] => fs !! q
  | _ => if is_prefix q p then Some EDir else fs !! q
  end.

(** The entries of [fs] at or below [src], re-rooted at [dest]. *)
Definition rebase (src dest : path) (fs : FS) : FS :=
  list_to_map
    (omap (fun kv : path * entry =>
             match under src kv.1 with
             | Some r => Some (dest ++ r, kv.2)
             | None => None
             end)
          (map_to_list fs)).

(** Whether the entry [e] found [r] below the source may land on what is
    already at [r] below [dest]: a file replaces a file, a directory merges
    into a directory, anything else is refused. *)
Definition lands (src dest : path) (target : FS) (k : path) (e : entry) : Prop :=
  match under src k with
  | Some r =>
      match stat target (dest ++ r) with
      | Some e' => same_kind e e' = true
      | None => True
      end
  | None => True
  end.

Global Instance lands_dec src dest target k e : Decision (lands src dest target k e).
Proof.
  unfold lands. destruct (under src k); [ | apply _].
  destruct (stat target (dest ++ l)); apply _.
Defined.

(** [cpSync(src, dest, { recursive: true })]: the parent of [dest] is created
    as needed; files are overwritten and keep the source's mode; directories
    are merged.  What a failed copy leaves behind is not tracked. *)
Definition cpSync (src dest : path) (fs : FS) : sys FS :=
  match stat fs src with
  | None => Fail ENOENT
  | Some _ =>
      if is_prefix src dest then Fail ERR_FS_CP_EINVAL
      else
        match mkdirp (parent dest) fs with
        | Fail e => Fail e
        | Done fs1 =>
            if bool_decide (map_Forall (lands src dest fs1) fs)
            then Done (rebase src dest fs ∪ fs1)
            else Fail ERR_FS_CP_KIND
        end
  end.

(** [chmodSync(p, mode)]. *)
Definition chmod (p : path) (mode : Z) (fs : FS) : sys FS :=
  match stat fs p with
  | None => Fail ENOENT
  | Some (EFile _ c) => Done (<[p := EFile mode c]> fs)
  | Some EDir => Done fs
  end.

(** [rm(p)] of [node:fs/promises], without options: files only. *)
Definition rm (p : path) (fs : FS) : sys FS :=
  match stat fs p with
  | None => Fail ENOENT
  | Some EDir => Fail EISDIR
  | Some (EFile _ _) => Done (delete p fs)
  end.

(** Mode of a file created by a write stream (0o666 under umask 022). *)
Definition new_file_mode : Z := 420.        (* 0o644 *)

(** [createWriteStream(p)]: flag [w] creates the file or truncates it. *)
Definition open_write (p : path) (fs : FS) : sys FS :=
  match stat fs p with
  | Some EDir => Fail EISDIR
  | Some (EFile m _) => Done (<[p := EFile m []]> fs)
  | None =>
      if is_dir fs (parent p) then Done (<[p := EFile new_file_mode []]> fs)
      else Fail ENOENT
  end.

(** One chunk flushed to an open file. *)
Definition append (p : path) (chunk : list byte) (fs : FS) : FS :=
  alter (fun e => match e with
                  | EFile m c => EFile m (c ++ chunk)
                  | EDir => EDir
                  end) p fs.

(** [Bun.write(p, data)]: the whole file at once. *)
Definition write_file (p : path) (data : list byte) (fs : FS) : sys FS :=
  match open_write p fs with
  | Done fs' => Done (append p data fs')
  | Fail e => Fail e
  end.

(** ** Errors, console and process state *)

Inductive syscall : Type :=
| Mkdir | Cp | Chmod | Rm | WriteFile.

Inductive error : Type :=
| HttpError (status : Z) (statusText : string)
    (* new Error(`HTTP ${response.status}: ${response.statusText}`) *)
| TarFailed (url : string)
    (* new Error(`Tar extraction failed for ${url}`) *)
| TarFailedPlain
    (* new Error("Tar extraction failed.") *)
| EmptyDownload
    (* new Error("Downloaded file is empty (0 bytes).") *)
| NetworkError (reason : string)
    (* what fetch() or a read of the response body rejects with *)
| InvalidUrl (url : string)
    (* the TypeError of new URL(url) *)
| StreamError (p : path)
    (* the 'error' event of the write stream on p *)
| SysError (call : syscall) (code : errno) (p : path).
    (* the exception of a node:fs call on p *)

Inductive message : Type :=
| LogCreating (distPath : path)        (* Creating independent toolchain at: ... *)
| WarnSourceNotFound (src : path)      (* Warning: Source not found: ... *)
| LogAssembling (triple : string)      (* Assembling toolchain for ... *)
| LogCopyingBinaries                   (* Copying binaries and libraries... *)
| LogCopyingAndroid                    (* Copying Android standard libraries... *)
| LogAssembled                         (* Toolchain assembled successfully. *)
| LogFetching (url : string)           (* Fetching: ... *)
| LogDownloading (name : string)       (* Downloading ... *)
| LogProgress (received total : N)     (* > p% [x MB / y MB] *)
| LogReceived (received : N)           (* > Received: x MB *)
| LogDownloadComplete                  (* Download complete! *)
| LogExtracting (name : string)        (* Extracting ... *)
| ErrFailedToDownload (url : string) (e : error)   (* Failed to download ...: ... *)
| ErrUnsupportedPlatform (key : string)            (* Unsupported platform: ... *)
| LogDownloadingAndroid                (* Downloading Android standard libraries... *)
| LogSuccess (dist : path)             (* Success! Rust toolchain ready at: ... *)
| ErrInstallationFailed (e : error)    (* Installation failed: ... *)
| LogSaving (size : N)                 (* Saving ... bytes to disk... *)
| LogExtractingArchive                 (* Extracting... *)
| LogBinaryAt (p : path).              (* Success! Binary located at: ... *)

Record state : Type := State {
  disk : FS;
  console : list message
}.

(** How the process can stop other than by returning or throwing.  What the
    runtime itself reports when it stops the process is not part of the
    console: the console holds what the script prints. *)
Inductive halt : Type :=
| ProcessExit (code : Z)         (* process.exit(code) *)
| Unhandled (e : error)          (* a rejection nobody awaits *)
| Uncaught (e : error).          (* an 'error' event nobody listens to *)

Inductive result (A : Type) : Type :=
| Ok (a : A) (s : state)
| Throw (e : error) (s : state)
| Halt (h : halt) (s : state).
Arguments Ok {A} a s.
Arguments Throw {A} e s.
Arguments Halt {A} h s.

Definition M (A : Type) : Type := state -> result A.

Definition ret {A} (a : A) : M A := fun s => Ok a s.

Definition bind {A B} (m : M A) (k : A -> M B) : M B :=
  fun s => match m s with
           | Ok a s' => k a s'
           | Throw e s' => Throw e s'
           | Halt h s' => Halt h s'
           end.

Definition throw {A} (e : error) : M A := fun s => Throw e s.

Definition process_exit {A} (code : Z) : M A := fun s => Halt (ProcessExit code) s.

(** [try { body } catch (e) { handler }]: only exceptions are caught. *)
Definition try_catch {A} (body : M A) (handler : error -> M A) : M A :=
  fun s => match body s with
           | Throw e s' => handler e s'
           | r => r
           end.

(** An awaited call inside an event callback: its rejection has no handler. *)
Definition detached {A} (m : M A) : M A :=
  fun s => match m s with
           | Throw e s' => Halt (Unhandled e) s'
           | r => r
           end.

Definition print (m : message) : M unit :=
  fun s => Ok tt (State (disk s) (console s ++ [m])).

Definition call (c : syscall) (p : path) (op : FS -> sys FS) : M unit :=
  fun s => match op (disk s) with
           | Done fs' => Ok tt (State fs' (console s))
           | Fail e => Throw (SysError c e p) s
           end.

Definition existsSync (p : path) : M bool :=
  fun s => Ok (exists_at (disk s) p) s.

Definition rmSync (p : path) : M unit :=
  fun s => Ok tt (State (rm_rf p (disk s)) (console s)).

Declare Scope prog_scope.
Delimit Scope prog_scope with prog.
Notation "'let*' x ':=' m 'in' k" := (bind m (fun x => k))
  (at level 10, x name, m at level 100, k at level 200) : prog_scope.
Notation "m ;; k" := (bind m (fun _ => k))
  (at level 100, k at level 200, right associativity) : prog_scope.
Local Open Scope prog_scope.

Definition when (b : bool) (m : M unit) : M unit := if b then m else ret tt.

Fixpoint for_each {A} (l : list A) (body : A -> M unit) : M unit :=
  match l with
  | [] => ret tt
  | x :: l' => body x ;; for_each l' body
  end.

(** ** The world outside the script *)

Record response : Type := Response {
  status : Z;
  statusText : string;
  totalSize : N;
    (* parseInt(headers.get("content-length") || "0", 10); 0 when it is no number *)
  chunks : list (list byte);
    (* what reader.read() delivers before it reports done *)
  aborted : option string
    (* Some reason: the body stream rejects after these chunks *)
}.

(** [response.ok] *)
Definition ok (r : response) : bool := (200 <=? status r) && (status r <=? 299).

Record World : Type := {
  platform : string;                              (* process.platform *)
  arch : string;                                  (* process.arch *)
  url_basename : string -> option string;
    (* path.basename(new URL(url).pathname); None when new URL throws *)
  fetch : string -> string + response;            (* inl: fetch rejects *)
  disk_fault : path -> option nat;
    (* Some k: the write stream on that path fails once k chunks are flushed *)
  tar : list byte -> FS -> Z * FS
    (* tar -xf <archive> --strip-components=1 -C <dir>, from the archive's
       bytes and what is at and below <dir>: exit status, and what is at and
       below <dir> afterwards *)
}.

(** ** The script: constants *)

Definition mode_0755 : Z := 493.

Definition BINARY_NAME : string := "rustc".

Definition PLATFORMS : gmap string string :=
  list_to_map
    [ ("darwin-arm64",
       "https://static.rust-lang.org/dist/rust-1.92.0-aarch64-apple-darwin.tar.xz");
      ("darwin-x64",
       "https://static.rust-lang.org/dist/rust-1.92.0-x86_64-apple-darwin.tar.xz");
      ("linux-x64",
       "https://static.rust-lang.org/dist/rust-1.92.0-x86_64-unknown-linux-gnu.tar.xz") ].

Definition ANDROID_STDS : list string :=
  [ "https://static.rust-lang.org/dist/rust-std-1.92.0-i686-linux-android.tar.gz";
    "https://static.rust-lang.org/dist/rust-std-1.92.0-x86_64-linux-android.tar.gz";
    "https://static.rust-lang.org/dist/rust-std-1.92.0-armv7-linux-androideabi.tar.xz";
    "https://static.rust-lang.org/dist/rust-std-1.92.0-aarch64-linux-android.tar.xz" ].

(** `${process.platform}-${process.arch}` *)
Definition platformKey (w : World) : string := platform w +:+ "-" +:+ arch w.

(** The conditional chain of [setupIndependentRust]. *)
Definition targetTriple (key : string) : string :=
  if String.eqb key "linux-x64" then "x86_64-unknown-linux-gnu"
  else if String.eqb key "darwin-arm64" then "aarch64-apple-darwin"
  else if String.eqb key "darwin-x64" then "x86_64-apple-darwin"
  else "".

Definition androidTargets : list string :=
  [ "i686-linux-android"; "x86_64-linux-android";
    "armv7-linux-androideabi"; "aarch64-linux-android" ].

(** JavaScript truthiness of a looked-up string: [undefined] and [""] are
    falsy.  (Inherited properties of the object cannot be hit: the key always
    contains a dash.) *)
Definition truthy (v : option string) : option string :=
  match v with
  | Some (String a rest) => Some (String a rest)
  | _ => None
  end.

(** ** The script: functions *)

Section Script.

Context (w : World).

(** The [copyDir] helper of [setupIndependentRust]. *)
Definition copyDir (src dest : path) : M unit :=
  let* found := existsSync src in
  if negb found then print (WarnSourceNotFound src)
  else call Cp src (cpSync src dest).

Definition setupIndependentRust (unpackedPath : path) : M unit :=
  let distPath := unpackedPath ++ join ["dist"] in
  let binPath := distPath ++ join ["bin"] in
  let libPath := distPath ++ join ["lib"] in
  print (LogCreating distPath) ;;
  (* 1. Create directory structure *)
  (let* found := existsSync distPath in when found (rmSync distPath)) ;;
  call Mkdir binPath (mkdirp binPath) ;;
  call Mkdir libPath (mkdirp libPath) ;;
  (* 2. Map tarball folders to standard layout *)
  let triple := targetTriple (platformKey w) in
  print (LogAssembling triple) ;;
  print LogCopyingBinaries ;;
  copyDir (unpackedPath ++ join ["rustc"; "bin"]) binPath ;;
  copyDir (unpackedPath ++ join ["rustc"; "lib"]) libPath ;;
  copyDir (unpackedPath ++ join ["cargo"; "bin"]) binPath ;;
  copyDir (unpackedPath ++ join ["rust-std-" +:+ triple; "lib"; "rustlib"])
          (libPath ++ join ["rustlib"]) ;;
  (if String.eqb (platform w) "linux" then
     print LogCopyingAndroid ;;
     for_each androidTargets (fun target =>
       copyDir (unpackedPath ++ join ["rust-std-" +:+ target; "lib"; "rustlib"; target])
               (libPath ++ join ["rustlib"; target]))
   else ret tt) ;;
  (let* found := existsSync (join ["dist"]) in when found (rmSync (join ["dist"]))) ;;
  call Mkdir (join ["dist"]) (mkdir (join ["dist"])) ;;
  copyDir distPath (join ["dist"]) ;;
  print LogAssembled.

(** The read loop of [downloadAndExtract]: each chunk is handed to the write
    stream on [p], then progress is printed.  [flushed] counts the chunks
    handed over so far, [broken] tells whether the stream has failed.

    While the loop runs the stream has no ['error'] listener: the script
    attaches one only with the promise, after the loop.  A stream that has
    failed emits ['error'] while the loop waits for the next chunk, and an
    ['error'] event without a listener is an uncaught exception, which ends
    the process there.  Only the failure of the last write outlives the loop:
    the end of the body is taken to arrive with the last chunk, so that the
    event is emitted when the listeners are there. *)
Fixpoint pump (p : path) (total : N) (cs : list (list byte))
    (received : N) (flushed : nat) (broken : bool) (s : state) : result bool :=
  match cs with
  | [] => Ok broken s
  | value :: cs' =>
      if broken then Halt (Uncaught (StreamError p)) s
      else
        let fails :=
          match disk_fault w p with
          | Some k => (k <=? flushed)%nat
          | None => false
          end in
        let fs' := if fails then disk s else append p value (disk s) in
        let received' := (received + N.of_nat (length value))%N in
        let line := if (total =? 0)%N then LogReceived received'
                    else LogProgress received' total in
        pump p total cs' received' (S flushed) fails
             (State fs' (console s ++ [line]))
  end.

(** [createWriteStream(p)] followed by the read loop.  A stream that could
    not be opened has failed before the first chunk.  When the body breaks
    off, the loop was waiting for more: a stream that had failed by then has
    ended the process, otherwise the read rejects.  When the loop is left,
    the result tells whether the stream has failed on its last write. *)
Definition stream_to (p : path) (name : string) (r : response) : M bool :=
  fun s =>
    let '(broken, fs0) :=
      match open_write p (disk s) with
      | Done fs' => (false, fs')
      | Fail _ => (true, disk s)
      end in
    let s0 := State fs0 (console s ++ [LogDownloading name]) in
    match pump p (totalSize r) (chunks r) 0%N 0%nat broken s0 with
    | Ok broken' s1 =>
        match aborted r with
        | Some reason =>
            if broken' then Halt (Uncaught (StreamError p)) s1
            else Throw (NetworkError reason) s1
        | None => Ok broken' s1
        end
    | Throw e s1 => Throw e s1
    | Halt h s1 => Halt h s1
    end.

(** [spawnSync("tar", ["-xf", archive, "--strip-components=1", "-C", dir])]:
    the exit status. *)
Definition spawn_tar (archive dir : path) : M Z :=
  fun s =>
    match stat (disk s) archive with
    | Some (EFile _ bytes) =>
        let '(code, below) := tar w bytes (rebase dir [] (disk s)) in
        Ok code (State (rebase [] dir below ∪ rm_rf dir (disk s)) (console s))
    | _ => Ok 2 s
    end.

(** The promise [downloadAndExtract] returns: settled by the stream's
    [finish] or [error] event.  Its listeners are attached after the loop:
    [broken] tells that the stream failed on its last write or, the body
    being empty, could not be opened, the only failures whose ['error']
    event these listeners can receive. *)
Definition settle (url : string) (name : string) (tempArchivePath extractPath : path)
    (broken : bool) : M unit :=
  if broken then throw (StreamError tempArchivePath)      (* writer.on("error", reject) *)
  else
    print LogDownloadComplete ;;
    print (LogExtracting name) ;;
    let* code := spawn_tar tempArchivePath extractPath in
    if negb (code =? 0) then throw (TarFailed url)
    else detached (call Rm tempArchivePath (rm tempArchivePath)).

Definition downloadAndExtract (url : string) (extractPath : path) : M unit :=
  match url_basename w url with
  | None => throw (InvalidUrl url)
  | Some name =>
      let tempArchivePath := join ["download"; name] in
      let downloadPath := join ["download"] in
      (let* found := existsSync downloadPath in
       when (negb found) (call Mkdir downloadPath (mkdirp downloadPath))) ;;
      let* promise :=
        try_catch
          (print (LogFetching url) ;;
           match fetch w url with
           | inl reason => throw (NetworkError reason)
           | inr r =>
               if negb (ok r) then throw (HttpError (status r) (statusText r))
               else stream_to tempArchivePath name r
           end)
          (fun error =>
             print (ErrFailedToDownload url error) ;;
             (let* found := existsSync tempArchivePath in
              when found (call Rm tempArchivePath (rm tempArchivePath))) ;;
             throw error) in
      (* the promise is returned without await: it settles after the
         function has left its try block *)
      settle url name tempArchivePath extractPath promise
  end.

Definition run : M unit :=
  let key := platformKey w in
  match truthy (PLATFORMS !! key) with
  | None =>
      print (ErrUnsupportedPlatform key) ;;
      process_exit 1
  | Some mainUrl =>
      let extractPath := join ["extract"] in
      (let* found := existsSync extractPath in when found (rmSync extractPath)) ;;
      call Mkdir extractPath (mkdirp extractPath) ;;
      try_catch
        ((* 1. Download and extract main toolchain *)
         downloadAndExtract mainUrl extractPath ;;
         (* 2. Download and extract Android std libs if on Linux *)
         (if String.eqb (platform w) "linux" then
            print LogDownloadingAndroid ;;
            for_each ANDROID_STDS (fun url => downloadAndExtract url extractPath)
          else ret tt) ;;
         (* 3. Assemble the toolchain *)
         setupIndependentRust extractPath ;;
         let binPath := join ["dist"; "bin"; BINARY_NAME] in
         let* found := existsSync binPath in
         if found then
           call Chmod binPath (chmod binPath mode_0755) ;;
           print (LogSuccess (join ["dist"]))
         else ret tt)
        (fun error =>
           print (ErrInstallationFailed error) ;;
           process_exit 1)
  end.

End Script.

(** ** The script: its first revision

    [download], the single-archive installer the script started as: the whole
    body is read into memory, checked for emptiness and written at once, and
    every failure is thrown inside the [try] block. *)

Module Legacy.
Section Script.

Context (w : World).

Definition download : M unit :=
  let key := platformKey w in
  match truthy (PLATFORMS !! key) with
  | None =>
      print (ErrUnsupportedPlatform key) ;;
      process_exit 1
  | Some url =>
      let tempArchivePath := join ["temp-archive.tar.xz"] in
      try_catch
        (print (LogFetching url) ;;
         match fetch w url with
         | inl reason => throw (NetworkError reason)
         | inr r =>
             if negb (ok r) then throw (HttpError (status r) (statusText r))
             else
               (* const data = await response.arrayBuffer() *)
               match aborted r with
               | Some reason => throw (NetworkError reason)
               | None =>
                   let data := concat (chunks r) in
                   (* Check if we actually got data *)
                   if (length data =? 0)%nat then throw EmptyDownload
                   else
                     print (LogSaving (N.of_nat (length data))) ;;
                     call WriteFile tempArchivePath (write_file tempArchivePath data) ;;
                     print LogExtractingArchive ;;
                     let* exitCode := spawn_tar w tempArchivePath [] in
                     if negb (exitCode =? 0) then throw TarFailedPlain
                     else
                       (* Cleanup *)
                       call Rm tempArchivePath (rm tempArchivePath) ;;
                       (* Verify *)
                       let binPath := join ["bin"; BINARY_NAME] in
                       let* found := existsSync binPath in
                       if found then
                         call Chmod binPath (chmod binPath mode_0755) ;;
                         print (LogBinaryAt binPath)
                       else ret tt
               end
         end)
        (fun error =>
           print (ErrInstallationFailed error) ;;
           (let* found := existsSync tempArchivePath in
            when found (call Rm tempArchivePath (rm tempArchivePath))) ;;
           process_exit 1)
  end.

End Script.
End Legacy.

(** ** The script: an intermediate revision

    [setupIndependentRust] as [src/install.ts] has it, before the Android
    targets and the other hosts came in: the triple is a constant, and the
    output directory is created without being cleared first. *)

Module Draft.

Definition setupIndependentRust (unpackedPath : path) : M unit :=
  let distPath := unpackedPath ++ join ["dist"] in
  let binPath := distPath ++ join ["bin"] in
  let libPath := distPath ++ join ["lib"] in
  print (LogCreating distPath) ;;
  (* 1. Create directory structure *)
  (let* found := existsSync distPath in when found (rmSync distPath)) ;;
  call Mkdir binPath (mkdirp binPath) ;;
  call Mkdir libPath (mkdirp libPath) ;;
  (* 2. Map tarball folders to standard layout *)
  let targetTriple := "x86_64-unknown-linux-gnu" in
  print LogCopyingBinaries ;;
  copyDir (unpackedPath ++ join ["rustc"; "bin"]) binPath ;;
  copyDir (unpackedPath ++ join ["rustc"; "lib"]) libPath ;;
  copyDir (unpackedPath ++ join ["cargo"; "bin"]) binPath ;;
  copyDir (unpackedPath ++ join ["rust-std-" +:+ targetTriple; "lib"; "rustlib"])
          (libPath ++ join ["rustlib"]) ;;
  call Mkdir (join ["dist"]) (mkdir (join ["dist"])) ;;
  copyDir distPath (join ["dist"]) ;;
  print LogAssembled.

End Draft.

(** The exit status of the process, from how the top-level [run()] ends. *)
Definition exit_status {A} (r : result A) : Z :=
  match r with
  | Ok _ _ => 0
  | Halt (ProcessExit code) _ => code
  | Halt (Unhandled _) _ => 1
  | Halt (Uncaught _) _ => 1
  | Throw _ _ => 1
  end.

Definition final_state {A} (r : result A) : state :=
  match r with
  | Ok _ s | Throw _ s | Halt _ s => s
  end.

(** ** Sample worlds

    Concrete hosts, servers and archives on which the script is run below. *)

Module Sample.

(** The text after the last slash: what [path.basename(new URL(url).pathname)]
    gives for the URLs of the script, and for a URL that is a host followed
    by a slash, whose path [/] has the empty base name. *)
Fixpoint after_last_slash (url acc : string) : string :=
  match url with
  | EmptyString => acc
  | String c rest =>
      if Ascii.eqb c "/" then after_last_slash rest EmptyString
      else after_last_slash rest (acc +:+ String c EmptyString)
  end.

Definition basename (url : string) : option string := Some (after_last_slash url "").

Definition install (entries : list (path * entry)) (below : FS) : FS :=
  list_to_map entries ∪ below.

(** What the distribution archive for [host] unpacks to once its top-level
    folder is stripped; [rustc] is shipped without execute permission. *)
Definition toolchain (host : string) (bytes : list byte) : list (path * entry) :=
  [ (["rustc"], EDir);
    (["rustc"; "bin"], EDir);
    (["rustc"; "bin"; "rustc"], EFile 420 bytes);
    (["rustc"; "lib"], EDir);
    (["rustc"; "lib"; "librustc_driver.so"], EFile 420 []);
    (["cargo"], EDir);
    (["cargo"; "bin"], EDir);
    (["cargo"; "bin"; "cargo"], EFile 493 []);
    (["rust-std-" +:+ host], EDir);
    (["rust-std-" +:+ host; "lib"], EDir);
    (["rust-std-" +:+ host; "lib"; "rustlib"], EDir);
    (["rust-std-" +:+ host; "lib"; "rustlib"; host], EDir);
    (["rust-std-" +:+ host; "lib"; "rustlib"; host; "lib"], EDir) ].

(** What a standard-library archive for [target] unpacks to. *)
Definition std_only (target : string) : list (path * entry) :=
  [ (["rust-std-" +:+ target], EDir);
    (["rust-std-" +:+ target; "lib"], EDir);
    (["rust-std-" +:+ target; "lib"; "rustlib"], EDir);
    (["rust-std-" +:+ target; "lib"; "rustlib"; target], EDir);
    (["rust-std-" +:+ target; "lib"; "rustlib"; target; "lib"], EDir) ].

(** A [tar] that tells the archives apart by their first byte, accepts an
    empty archive when [lenient] (as GNU tar does) and fails on it otherwise. *)
Definition untar (lenient : bool) (host : string) (bytes : list byte) (below : FS) : Z * FS :=
  match bytes with
  | [] => if lenient then (0, below) else (2, below)
  | x01 :: _ => (0, install (std_only "i686-linux-android") below)
  | x02 :: _ => (0, install (std_only "x86_64-linux-android") below)
  | x03 :: _ => (0, install (std_only "armv7-linux-androideabi") below)
  | x04 :: _ => (0, install (std_only "aarch64-linux-android") below)
  | _ => (0, install (toolchain host bytes) below)
  end.

Definition broken_tar (bytes : list byte) (below : FS) : Z * FS := (2, below).

Definition tag (url : string) : byte :=
  if String.eqb url "https://static.rust-lang.org/dist/rust-std-1.92.0-i686-linux-android.tar.gz" then x01
  else if String.eqb url "https://static.rust-lang.org/dist/rust-std-1.92.0-x86_64-linux-android.tar.gz" then x02
  else if String.eqb url "https://static.rust-lang.org/dist/rust-std-1.92.0-armv7-linux-androideabi.tar.xz" then x03
  else if String.eqb url "https://static.rust-lang.org/dist/rust-std-1.92.0-aarch64-linux-android.tar.xz" then x04
  else x7f.

(** A server that answers every request with 200 and a two-chunk body. *)
Definition serve (url : string) : string + response :=
  inr (Response 200 "OK" 3 [[tag url; x45]; [x4c]] None).

(** A server that answers every request with 404. *)
Definition serve_404 (url : string) : string + response :=
  inr (Response 404 "Not Found" 0 [[x3c; x68; x31; x3e]] None).

(** A server that answers every request with 200 and no body. *)
Definition serve_empty (url : string) : string + response :=
  inr (Response 200 "OK" 0 [] None).

Definition no_fault (p : path) : option nat := None.

(** The disk fills up after the first chunk of any file. *)
Definition full_after_one (p : path) : option nat := Some 1%nat.

Definition host (plat ar : string) : World :=
  {| platform := plat; arch := ar; url_basename := basename;
     fetch := serve; disk_fault := no_fault;
     tar := untar true (targetTriple (plat +:+ "-" +:+ ar)) |}.

Definition linux_x64 : World := host "linux" "x64".
Definition darwin_arm64 : World := host "darwin" "arm64".
Definition win32_x64 : World := host "win32" "x64".

Definition linux_404 : World :=
  {| platform := "linux"; arch := "x64"; url_basename := basename;
     fetch := serve_404; disk_fault := no_fault;
     tar := untar true "x86_64-unknown-linux-gnu" |}.

Definition linux_empty_body (lenient : bool) : World :=
  {| platform := "linux"; arch := "x64"; url_basename := basename;
     fetch := serve_empty; disk_fault := no_fault;
     tar := untar lenient "x86_64-unknown-linux-gnu" |}.

Definition linux_broken_tar : World :=
  {| platform := "linux"; arch := "x64"; url_basename := basename;
     fetch := serve; disk_fault := no_fault; tar := broken_tar |}.

Definition linux_disk_full : World :=
  {| platform := "linux"; arch := "x64"; url_basename := basename;
     fetch := serve; disk_fault := full_after_one;
     tar := untar true "x86_64-unknown-linux-gnu" |}.



(** A fresh checkout: nothing below the script's directory, nothing printed. *)
Definition fresh : state := State ∅ [].

(** A staging root holding one unpacked archive set, as [run] leaves it
    before assembly. *)
Definition staged_with (entries : list (path * entry)) : state :=
  State (rebase [] ["extract"] (install entries {[ [] := EDir ]})) [].

(** The staging root of a Linux host after the toolchain archive and two of
    the Android archives were unpacked. *)
Definition staged_linux : state :=
  staged_with (toolchain "x86_64-unknown-linux-gnu" [x7f; x45; x4c]
               ++ std_only "i686-linux-android"
               ++ std_only "aarch64-linux-android").



(** The staging root of a macOS host holding, besides its toolchain, an
    Android component that nothing there asks for. *)
Definition staged_darwin : state :=
  staged_with (toolchain "aarch64-apple-darwin" [x7f; x45; x4c]
               ++ std_only "i686-linux-android").

(** A server whose answer breaks off after its first chunk. *)
Definition serve_cut_off (url : string) : string + response :=
  inr (Response 200 "OK" 3 [[x7f; x45]] (Some "terminated")).

Definition linux_cut_off : World :=
  {| platform := "linux"; arch := "x64"; url_basename := basename;
     fetch := serve_cut_off; disk_fault := no_fault;
     tar := untar true "x86_64-unknown-linux-gnu" |}.

(** A checkout that holds the toolchain an earlier run installed. *)
Definition installed_before : state :=
  State (list_to_map [ (["dist"], EDir);
                       (["dist"; "bin"], EDir);
                       (["dist"; "bin"; "rustc"], EFile 493 [x01]) ]) [].

(** A staging root in which the package manager's [bin] holds a file named
    like the compiler. *)
Definition staged_clash : state :=
  staged_with (toolchain "aarch64-apple-darwin" [x7f; x45; x4c]
               ++ [(["cargo"; "bin"; "rustc"], EFile 493 [x01])]).

(** The staging root of a macOS host beside an output directory that an
    earlier run has left, with a file the archives no longer have. *)
Definition staged_over_old : state :=
  State (install [ (["dist"], EDir); (["dist"; "old"], EFile 420 []) ]
           (disk staged_darwin)) [].

(** A checkout with a staging root left by an interrupted run, beside a
    file of the package. *)
Definition interrupted : state :=
  State (list_to_map [ (["package.json"], EFile 420 [x7b; x7d]);
                       (["extract"], EDir);
                       (["extract"; "junk"], EFile 420 [x00]) ]) [].

(** The same checkout without the staging root. *)
Definition clean : state :=
  State (list_to_map [ (["package.json"], EFile 420 [x7b; x7d]) ]) [].

Definition main_url : string :=
  "https://static.rust-lang.org/dist/rust-1.92.0-x86_64-unknown-linux-gnu.tar.xz".

Definition main_archive : path :=
  ["download"; "rust-1.92.0-x86_64-unknown-linux-gnu.tar.xz"].

End Sample.

(** ** Vocabulary of the statements *)

(** The keys of [PLATFORMS]. *)
Definition supported : list string := ["darwin-arm64"; "darwin-x64"; "linux-x64"].

(** [fails_only P m]: [m] never halts the process, and whatever it throws
    satisfies [P]. *)
Definition fails_only {A} (P : error -> Prop) (m : M A) : Prop :=
  forall s, match m s with
            | Ok _ _ => True
            | Throw e _ => P e
            | Halt _ _ => False
            end.

(** Whether a computation came to its end without throwing or halting. *)
Definition returned {A} (r : result A) : bool :=
  match r with
  | Ok _ _ => true
  | _ => false
  end.

(** An error that is not "the source of a copy does not exist". *)
Definition not_missing_source (e : error) : Prop :=
  match e with
  | SysError Cp code _ => code <> ENOENT
  | SysError Mkdir _ _ => True
  | _ => False
  end.

(** The execute bits of owner, group and other. *)
Definition executable_by_all (mode : Z) : bool :=
  Z.testbit mode 6 && Z.testbit mode 3 && Z.testbit mode 0.

(** The reading of C7 under which the assembler itself refuses an empty
    triple: on a platform key outside the mapped set the triple is empty and
    the assembler does not run to its end. *)
Definition assembler_rejects_empty_triple : Prop :=
  forall (w : World) (unpackedPath : path) (s : state),
    platformKey w ∉ supported ->
    targetTriple (platformKey w) = "" /\
    forall s', setupIndependentRust w unpackedPath s <> Ok tt s'.

(** A file system is a tree when the parent of every entry is a directory. *)
Definition tree (fs : FS) : Prop :=
  map_Forall (fun k _ => is_dir fs (parent k) = true) fs.

Global Instance tree_dec (fs : FS) : Decision (tree fs).
Proof. unfold tree. apply _. Defined.

(** Nothing lies below [p] unless [p] itself is there. *)
Definition closed (p : path) (fs : FS) : Prop :=
  fs !! p = None -> forall r, fs !! (p ++ r) = None.

(** The first of two entries that is there. *)
Definition orelse (a b : option entry) : option entry :=
  match a with Some e => Some e | None => b end.

(** What a copy of [src] contributes at [r] below its destination. *)
Definition from (fs : FS) (src r : path) : option entry :=
  if exists_at fs src then fs !! (src ++ r) else None.

(** What [copyDir src dest] leaves at [q]. *)
Definition copied (src dest : path) (fs : FS) (q : path) : option entry :=
  if exists_at fs src then
    match under dest q with
    | Some r =>
        match fs !! (src ++ r) with
        | Some e => Some e
        | None => made (parent dest) fs q
        end
    | None => made (parent dest) fs q
    end
  else fs !! q.

(** The URLs of the [Fetching] lines of a console, in order. *)
Definition fetched (out : list message) : list string :=
  omap (fun m => match m with LogFetching url => Some url | _ => None end) out.

(** What clearing [p] (if it is there, remove it with all below) leaves at
    [q], in a file system closed at [p]. *)
Definition cleared (p : path) (fs : FS) (q : path) : option entry :=
  match under p q with Some _ => None | None => fs !! q end.

(** What [mkdirSync(p)] leaves at [q]. *)
Definition mkdired (p : path) (fs : FS) (q : path) : option entry :=
  match under p q with Some [] => Some EDir | _ => fs !! q end.

(** What is staged below the unpacking root, and what is installed below the
    output directory. *)
Definition staged (s : state) (p : path) : Prop := is_Some (disk s !! ("extract" :: p)).

Definition installed (s : state) (p : path) : Prop := is_Some (disk s !! ("dist" :: p)).

Global Instance staged_dec (s : state) (p : path) : Decision (staged s p).
Proof. unfold staged. apply _. Defined.

(** The [lib/rustlib] directory of the unpacked standard-library component
    for [triple]. *)
Definition std_rustlib (triple : string) : path :=
  ["rust-std-" +:+ triple; "lib"; "rustlib"].

(** The Android standard libraries found in the staging root. *)
Definition staged_android (s : state) : list string :=
  filter (fun t => staged s (std_rustlib t ++ [t])) androidTargets.


(** [emits m urls]: running [m] adds to the console's [Fetching] lines an
    initial part of [urls], and all of [urls] when [m] returns. *)
Definition emits {A} (m : M A) (urls : list string) : Prop :=
  forall s,
    exists requested,
      requested `prefix_of` urls /\
      fetched (console (final_state (m s))) = fetched (console s) ++ requested /\
      forall a s', m s = Ok a s' -> requested = urls.

(** [throws_only P m]: whatever [m] throws satisfies [P]. *)
Definition throws_only {A} (P : error -> Prop) (m : M A) : Prop :=
  forall s e s', m s = Throw e s' -> P e.

(** An error other than the empty-download error. *)
Definition not_empty_download (e : error) : Prop := e <> EmptyDownload.

(** How a computation that did not return stopped. *)
Definition halted {A} (r : result A) : option halt :=
  match r with
  | Halt h _ => Some h
  | _ => None
  end.

Definition thrown {A} (r : result A) : option error :=
  match r with
  | Throw e _ => Some e
  | _ => None
  end.

(** [confined P m]: however [m] ends, it has changed the file system only at
    paths that satisfy [P]. *)
Definition confined {A} (P : path -> Prop) (m : M A) : Prop :=
  forall s q, ~ P q -> disk (final_state (m s)) !! q = disk s !! q.

(** Any error at all. *)
Definition any_error (e : error) : Prop := True.

(** What is at the path of an open file once [bytes] more are flushed to it. *)
Definition grown (bytes : list byte) (e : option entry) : option entry :=
  match e with
  | Some (EFile m x) => Some (EFile m (x ++ bytes))
  | o => o
  end.

(** The progress line of the read loop when [received] bytes have arrived. *)
Definition progress_line (total received : N) : message :=
  if (total =? 0)%N then LogReceived received else LogProgress received total.

(** The byte counts the read loop reports while the chunks [cs] arrive. *)
Fixpoint totals (received : N) (cs : list (list byte)) : list N :=
  match cs with
  | [] => []
  | value :: cs' =>
      let received' := (received + N.of_nat (length value))%N in
      received' :: totals received' cs'
  end.

(** How many chunks the write stream on [p] takes before it fails. *)
Definition accepted (w : World) (p : path) (cs : list (list byte)) : nat :=
  match disk_fault w p with
  | Some k => Nat.min k (length cs)
  | None => length cs
  end.

(** The paths [downloadAndExtract] may change: the download directory with
    what is in it, and the extraction directory with what is below it. *)
Definition download_area (extractPath : path) (q : path) : Prop :=
  is_Some (under ["download"] q) \/ is_Some (under extractPath q).

(** The paths the assembler may change: its working directory below the
    unpacking root, the output directory, and the directories above the
    working directory, which it creates when they are missing. *)
Definition assembly_area (unpackedPath : path) (q : path) : Prop :=
  is_Some (under (unpackedPath ++ ["dist"]) q) \/ is_Some (under ["dist"] q) \/
  (q <> [] /\ is_prefix q unpackedPath = true).

(** The three directories of the installer: the download directory, the
    staging root and the output directory, each with what is below it. *)
Definition run_area (q : path) : Prop :=
  is_Some (under ["download"] q) \/ is_Some (under ["extract"] q) \/
  is_Some (under ["dist"] q).


(** [halts_only Q m]: whenever [m] ends the process, it does so in a way that
    satisfies [Q]. *)
Definition halts_only {A} (Q : halt -> Prop) (m : M A) : Prop :=
  forall s h s', m s = Halt h s' -> Q h.

(** The uncaught ['error'] event of a write stream. *)
Definition stream_crash (h : halt) : Prop := exists p, h = Uncaught (StreamError p).


(** The server has delivered the archive at [url], and [tar] has unpacked it:
    the request was answered with success, the body arrived whole, and [tar]
    run on those bytes reported success. *)
Definition delivered (w : World) (url : string) : Prop :=
  exists r,
    fetch w url = inr r /\ ok r = true /\ aborted r = None /\
    exists below, (tar w (concat (chunks r)) below).1 = 0.

(** Two worlds that are the same machine: they differ at most in what the
    network answers. *)
Definition same_machine (w w' : World) : Prop :=
  platform w' = platform w /\ arch w' = arch w /\
  url_basename w' = url_basename w /\
  disk_fault w' = disk_fault w /\ tar w' = tar w.

(** [tar] does not remove what is in the directory it unpacks into. *)
Definition tar_keeps (w : World) : Prop :=
  forall bytes below q, is_Some (below !! q) -> is_Some ((tar w bytes below).2 !! q).

(** The archive with the body [bytes] holds the standard library of
    [target]: unpacked, whatever was there, its [lib/rustlib/<target>] is
    there. *)
Definition holds_std (w : World) (bytes : list byte) (target : string) : Prop :=
  forall below, is_Some ((tar w bytes below).2 !! (std_rustlib target ++ [target])).

(** * Laws of the model *)

(** Closes an equation between closed terms by running both sides. *)
Ltac evaluate :=
  lazymatch goal with
  | |- ?a = ?b => vm_cast_no_check (@eq_refl _ b)
  end.


(** *** Laws of paths *)

Lemma under_app (p r : path) : under p (p ++ r) = Some r.
Proof.
  induction p as [|c p IH]; simpl; [reflexivity|].
  rewrite String.eqb_refl. exact IH.
Qed.

Lemma under_Some (p q r : path) : under p q = Some r <-> q = p ++ r.
Proof.
  split.
  - revert q. induction p as [|c p IH]; intros q H; simpl in *.
    + congruence.
    + destruct q as [|d q]; [discriminate|].
      destruct (String.eqb_spec c d) as [->|]; [|discriminate].
      f_equal. auto.
  - intros ->. apply under_app.
Qed.

Lemma under_refl (p : path) : under p p = Some [].
Proof. apply under_Some. by rewrite app_nil_r. Qed.

Lemma under_None (p q : path) : under p q = None <-> forall r, q <> p ++ r.
Proof.
  split.
  - intros H r ->. rewrite under_app in H. discriminate.
  - intros H. destruct (under p q) as [r|] eqn:E; [|reflexivity].
    apply under_Some in E. by destruct (H r).
Qed.

(** *** Laws of the file-system operations *)

Lemma lookup_rm_rf (p q : path) (fs : FS) :
  rm_rf p fs !! q = match under p q with Some _ => None | None => fs !! q end.
Proof.
  unfold rm_rf. apply option_eq. intros e.
  rewrite map_lookup_filter_Some. simpl.
  destruct (under p q); [|tauto].
  split; [intros [_ ?]|]; discriminate.
Qed.

Lemma lookup_rebase (src dest q : path) (fs : FS) :
  rebase src dest fs !! q =
  match under dest q with Some r => fs !! (src ++ r) | None => None end.
Proof.
  unfold rebase. apply option_eq. intros e.
  rewrite <- elem_of_list_to_map; cycle 1.
  { assert (G : forall l : list (path * entry), NoDup (l.*1) ->
       NoDup ((omap (fun kv : path * entry =>
                 match under src kv.1 with
                 | Some r => Some (dest ++ r, kv.2)
                 | None => None
                 end) l).*1)).
    { induction l as [|[k x] l IH]; simpl; intros ND; [constructor|].
      apply NoDup_cons in ND as [Hk ND].
      destruct (under src k) as [r|] eqn:U; simpl; [|auto].
      apply NoDup_cons. split; [|auto].
      intros Hin. apply Hk.
      apply list_elem_of_fmap in Hin as [[k' x'] [Hk' Hin]]. simpl in Hk'.
      apply list_elem_of_omap in Hin as [[k2 x2] [Hin Hf]]. simpl in Hf.
      destruct (under src k2) as [r2|] eqn:U2; [|discriminate].
      injection Hf as <- <-.
      apply app_inv_head in Hk' as ->.
      apply under_Some in U, U2. subst.
      apply list_elem_of_fmap. by exists (src ++ r2, x2). }
    apply G, NoDup_fst_map_to_list. }
  rewrite list_elem_of_omap. split.
  - intros [[k x] [Hin Hf]]. simpl in Hf.
    destruct (under src k) as [r|] eqn:U; [|discriminate].
    injection Hf as <- <-. rewrite under_app.
    apply elem_of_map_to_list in Hin. apply under_Some in U. by subst.
  - destruct (under dest q) as [r|] eqn:U; [|discriminate].
    intros H. exists (src ++ r, e). split.
    + by apply elem_of_map_to_list.
    + simpl. rewrite under_app. apply under_Some in U. by subst.
Qed.

Lemma under_app_l (a b q : path) :
  under (a ++ b) q = match under a q with Some r => under b r | None => None end.
Proof.
  revert q. induction a as [|c a IH]; intros q; simpl; [reflexivity|].
  destruct q as [|d q]; [reflexivity|].
  destruct (String.eqb c d); [apply IH|reflexivity].
Qed.

Lemma lookup_mkdirp_from (rest base : path) (fs fs' : FS) :
  mkdirp_from base rest fs = Done fs' ->
  forall q, fs' !! q =
            match under base q with
            | Some (c :: r) => if is_prefix (c :: r) rest then Some EDir else fs !! q
            | _ => fs !! q
            end.
Proof.
  revert base fs. induction rest as [|c rest IH]; intros base fs H q; simpl in H.
  - injection H as <-. destruct (under base q) as [[|d r]|]; try reflexivity.
  - set (q0 := base ++ [c]) in *.
    assert (Hstep : exists fs1, mkdirp_from q0 rest fs1 = Done fs' /\
              forall k, fs1 !! k = if decide (k = q0) then Some EDir else fs !! k).
    { destruct (fs !! q0) as [[m x|]|] eqn:E; [discriminate| |].
      - exists fs. split; [exact H|]. intros k. case_decide; by subst.
      - exists (<[q0 := EDir]> fs). split; [exact H|]. intros k.
        case_decide; subst; [apply lookup_insert_eq|by apply lookup_insert_ne]. }
    destruct Hstep as (fs1 & Hrec & Hfs1).
    rewrite (IH _ _ Hrec q), Hfs1. unfold q0. rewrite under_app_l.
    destruct (under base q) as [[|d r]|] eqn:U; simpl.
    + apply under_Some in U. rewrite app_nil_r in U. subst q.
      case_decide as Hq; [|reflexivity].
      apply (f_equal length) in Hq. rewrite length_app in Hq. simpl in Hq. lia.
    + apply under_Some in U. subst q. unfold is_prefix. simpl.
      destruct (String.eqb_spec c d) as [->|Hcd].
      * rewrite String.eqb_refl.
        destruct r as [|d' r]; simpl.
        -- rewrite decide_True by reflexivity. reflexivity.
        -- rewrite decide_False; [reflexivity|].
           intros Hq. apply app_inv_head in Hq. discriminate.
      * assert (String.eqb d c = false) as -> by (apply String.eqb_neq; congruence).
        rewrite decide_False; [reflexivity|].
        intros Hq. apply app_inv_head in Hq. congruence.
    + case_decide as Hq; [|reflexivity]. subst q.
      rewrite under_app in U. discriminate.
Qed.

Lemma lookup_mkdirp (p q : path) (fs fs' : FS) :
  mkdirp p fs = Done fs' -> fs' !! q = made p fs q.
Proof.
  intros H. rewrite (lookup_mkdirp_from _ _ _ _ H q). simpl.
  destruct q; reflexivity.
Qed.

Lemma lookup_cpSync (src dest q : path) (fs fs' : FS) :
  cpSync src dest fs = Done fs' ->
  fs' !! q =
  match under dest q with
  | Some r =>
      match fs !! (src ++ r) with
      | Some e => Some e
      | None => made (parent dest) fs q
      end
  | None => made (parent dest) fs q
  end.
Proof.
  unfold cpSync. intros H.
  destruct (stat fs src); [|discriminate].
  destruct (is_prefix src dest); [discriminate|].
  destruct (mkdirp (parent dest) fs) as [fs1|] eqn:Hmk; [|discriminate].
  case_bool_decide; [|discriminate]. injection H as <-.
  rewrite lookup_union, lookup_rebase, (lookup_mkdirp _ q _ _ Hmk).
  destruct (under dest q) as [r|]; simpl.
  - destruct (fs !! (src ++ r)); simpl; [|by rewrite (left_id_L None _)].
    by destruct (made (parent dest) fs q).
  - by rewrite (left_id_L None _).
Qed.


Lemma stat_cons (fs : FS) (c : string) (p : path) : stat fs (c :: p) = fs !! (c :: p).
Proof. reflexivity. Qed.

Lemma rm_Done (p : path) (fs fs' : FS) :
  rm p fs = Done fs' ->
  (exists m c, stat fs p = Some (EFile m c)) /\ fs' = delete p fs /\ stat fs' p = None.
Proof.
  unfold rm. destruct (stat fs p) as [[m c|]|] eqn:E; try discriminate.
  intros [= <-]. split; [eauto|]. split; [reflexivity|].
  destruct p; [discriminate|]. simpl. apply lookup_delete_eq.
Qed.

Lemma mkdirp_from_not_ENOENT (rest base : path) (fs : FS) :
  mkdirp_from base rest fs <> Fail ENOENT.
Proof.
  revert base fs. induction rest as [|c rest IH]; intros base fs; simpl; [discriminate|].
  destruct (fs !! (base ++ [c])) as [[m x|]|]; [|apply IH|apply IH].
  destruct rest; discriminate.
Qed.

Lemma cpSync_ENOENT (src dest : path) (fs : FS) :
  cpSync src dest fs = Fail ENOENT -> exists_at fs src = false.
Proof.
  unfold cpSync, exists_at. destruct (stat fs src); [|reflexivity].
  destruct (is_prefix src dest); [discriminate|].
  destruct (mkdirp (parent dest) fs) eqn:E.
  - case_bool_decide; discriminate.
  - intros [= ->]. by apply mkdirp_from_not_ENOENT in E.
Qed.

(** *** Laws of the process monad *)

Lemma bind_Ok {A B} (m : M A) (k : A -> M B) (s s' : state) (b : B) :
  bind m k s = Ok b s' -> exists a s1, m s = Ok a s1 /\ k a s1 = Ok b s'.
Proof. unfold bind. destruct (m s) as [a s1| |]; [eauto|discriminate..]. Qed.

Lemma returned_Ok (r : result unit) : returned r = true -> r = Ok tt (final_state r).
Proof. by destruct r as [[] s| |]. Qed.

Lemma bind_Throw {A B} (m : M A) (k : A -> M B) (s s' : state) (e : error) :
  bind m k s = Throw e s' ->
  m s = Throw e s' \/ exists a s1, m s = Ok a s1 /\ k a s1 = Throw e s'.
Proof.
  unfold bind. destruct (m s) as [a s1|e1 s1|]; [eauto| |discriminate].
  intros [= -> ->]. by left.
Qed.

Lemma try_catch_Ok {A} (body : M A) (handler : error -> M A) (s s' : state) (a : A) :
  try_catch body handler s = Ok a s' ->
  body s = Ok a s' \/ exists e s1, body s = Throw e s1 /\ handler e s1 = Ok a s'.
Proof. unfold try_catch. destruct (body s); eauto; discriminate. Qed.

Lemma call_Ok (c : syscall) (p : path) (op : FS -> sys FS) (s s' : state) :
  call c p op s = Ok tt s' ->
  exists fs', op (disk s) = Done fs' /\ s' = State fs' (console s).
Proof.
  unfold call. destruct (op (disk s)) as [fs'|]; [|discriminate].
  intros [= <-]. eauto.
Qed.

Lemma fails_only_bind {A B} (P : error -> Prop) (m : M A) (k : A -> M B) :
  fails_only P m -> (forall a, fails_only P (k a)) -> fails_only P (bind m k).
Proof.
  intros Hm Hk s. unfold bind. specialize (Hm s).
  destruct (m s) as [a s1| |]; [apply Hk|done..].
Qed.

Lemma fails_only_print (P : error -> Prop) (m : message) : fails_only P (print m).
Proof. by intros s. Qed.

Lemma fails_only_ret {A} (P : error -> Prop) (a : A) : fails_only P (ret a).
Proof. by intros s. Qed.

Lemma fails_only_existsSync (P : error -> Prop) (p : path) : fails_only P (existsSync p).
Proof. by intros s. Qed.

Lemma fails_only_rmSync (P : error -> Prop) (p : path) : fails_only P (rmSync p).
Proof. by intros s. Qed.

Lemma fails_only_when (P : error -> Prop) (b : bool) (m : M unit) :
  fails_only P m -> fails_only P (when b m).
Proof. destruct b; [done|]. intros _. apply fails_only_ret. Qed.

Lemma fails_only_for_each {A} (P : error -> Prop) (l : list A) (body : A -> M unit) :
  (forall x, fails_only P (body x)) -> fails_only P (for_each l body).
Proof.
  intros Hb. induction l as [|x l IH]; simpl; [apply fails_only_ret|].
  apply fails_only_bind; auto.
Qed.

Lemma fails_only_call (P : error -> Prop) (c : syscall) (p : path) (op : FS -> sys FS) :
  (forall fs code, op fs = Fail code -> P (SysError c code p)) ->
  fails_only P (call c p op).
Proof.
  intros Hop s. unfold call.
  destruct (op (disk s)) as [|code] eqn:E; [done|]. eauto.
Qed.

Lemma fails_only_copyDir (src dest : path) :
  fails_only not_missing_source (copyDir src dest).
Proof.
  intros s. unfold copyDir, bind, existsSync.
  destruct (exists_at (disk s) src) eqn:E; simpl; [|done].
  unfold call. destruct (cpSync src dest (disk s)) as [|code] eqn:C; [done|].
  simpl. intros ->. apply cpSync_ENOENT in C. congruence.
Qed.

Lemma fails_only_setupIndependentRust (w : World) (unpackedPath : path) :
  fails_only not_missing_source (setupIndependentRust w unpackedPath).
Proof.
  unfold setupIndependentRust.
  repeat first
    [ apply fails_only_copyDir
    | apply fails_only_for_each; intros ?
    | apply fails_only_print
    | apply fails_only_ret
    | apply fails_only_existsSync
    | apply fails_only_rmSync
    | apply fails_only_when
    | apply fails_only_call; intros; exact I
    | match goal with |- fails_only _ (if ?b then _ else _) => destruct b end
    | apply fails_only_bind; [|intros ?] ].
Qed.

(** *** The platform table *)

Lemma PLATFORMS_unsupported (key : string) :
  key ∉ supported -> PLATFORMS !! key = None.
Proof.
  intros H. unfold PLATFORMS. simpl.
  rewrite !lookup_insert_ne, lookup_empty; [reflexivity|..];
    intros <-; apply H; unfold supported; repeat constructor.
Qed.

Lemma targetTriple_unsupported (key : string) :
  key ∉ supported -> targetTriple key = "".
Proof.
  intros H. unfold targetTriple.
  repeat match goal with
         | |- context [String.eqb key ?k] =>
             destruct (String.eqb_spec key k) as [->|_];
             [exfalso; apply H; unfold supported; repeat constructor|]
         end.
  reflexivity.
Qed.

Lemma targetTriple_empty (key : string) :
  targetTriple key = "" -> key ∉ supported.
Proof.
  intros H Hin. unfold supported in Hin.
  repeat (apply elem_of_cons in Hin as [->|Hin]; [discriminate H|]).
  by apply elem_of_nil in Hin.
Qed.

(** *** The download directory *)

Lemma join_download (name : string) :
  name <> "" -> join ["download"; name] = ["download"; name].
Proof.
  intros H. unfold join. simpl.
  destruct (String.eqb_spec name ""); [contradiction|reflexivity].
Qed.



(** *** Trees *)

Lemma tree_ancestor (fs : FS) (p r : path) :
  tree fs -> r <> [] -> is_Some (fs !! (p ++ r)) -> is_dir fs p = true.
Proof.
  intros Ht. induction r as [|c r IH] using rev_ind; [done|].
  intros _ [e He].
  pose proof (Ht _ _ He) as Hp. simpl in Hp.
  unfold parent in Hp. rewrite app_assoc, removelast_last in Hp.
  destruct r as [|d r]; [by rewrite app_nil_r in Hp|].
  apply IH; [done|].
  unfold is_dir, stat in Hp.
  destruct (p ++ d :: r) eqn:E; [by destruct p|].
  destruct (fs !! (s :: l)); [eauto|discriminate].
Qed.

Lemma tree_closed (p : path) (fs : FS) : tree fs -> p <> [] -> closed p fs.
Proof.
  intros Ht Hp Hnone r. destruct r as [|c r]; [by rewrite app_nil_r|].
  destruct (fs !! (p ++ c :: r)) eqn:E; [|reflexivity].
  assert (is_dir fs p = true) as Hd by (apply (tree_ancestor fs p (c :: r)); eauto).
  unfold is_dir, stat in Hd. destruct p; [done|]. by rewrite Hnone in Hd.
Qed.

Lemma closed_ext (p : path) (fs fs' : FS) :
  (forall r, fs' !! (p ++ r) = fs !! (p ++ r)) -> closed p fs -> closed p fs'.
Proof.
  intros He Hc Hn r. rewrite He. apply Hc.
  rewrite <- (app_nil_r p). rewrite <- He. by rewrite app_nil_r.
Qed.

Lemma from_tree (fs : FS) (src r : path) :
  tree fs -> src <> [] -> r <> [] -> from fs src r = fs !! (src ++ r).
Proof.
  intros Ht Hs Hr. unfold from, exists_at.
  destruct (fs !! (src ++ r)) as [e|] eqn:E; [|by destruct (stat fs src)].
  assert (is_dir fs src = true) as Hd by (apply (tree_ancestor fs src r); eauto).
  unfold is_dir in Hd. by destruct (stat fs src).
Qed.

Lemma from_nil (fs : FS) (src : path) : src <> [] -> from fs src [] = fs !! src.
Proof.
  intros Hs. unfold from, exists_at, stat. rewrite app_nil_r.
  destruct src; [done|]. by destruct (fs !! (s :: src)).
Qed.

Lemma from_frame (fs' fs : FS) (src r : path) :
  src <> [] ->
  fs' !! src = fs !! src -> fs' !! (src ++ r) = fs !! (src ++ r) ->
  from fs' src r = from fs src r.
Proof.
  intros Hs E1 E2. unfold from, exists_at, stat. destruct src; [done|].
  by rewrite E1, E2.
Qed.

(** *** What each statement of the assembler does to the file system *)

Lemma print_Ok (m : message) (s s' : state) :
  print m s = Ok tt s' -> forall q, disk s' !! q = disk s !! q.
Proof. by intros [= <-]. Qed.

Lemma clear_Ok (p : path) (s s' : state) :
  bind (existsSync p) (fun found => when found (rmSync p)) s = Ok tt s' ->
  disk s' = if exists_at (disk s) p then rm_rf p (disk s) else disk s.
Proof.
  unfold bind, existsSync, when, rmSync, ret.
  destruct (exists_at (disk s) p); by intros [= <-].
Qed.

Lemma clear_lookup (p : path) (s s' : state) :
  closed p (disk s) ->
  bind (existsSync p) (fun found => when found (rmSync p)) s = Ok tt s' ->
  forall q, disk s' !! q = cleared p (disk s) q.
Proof.
  intros Hc H q. apply clear_Ok in H. rewrite H. unfold cleared.
  destruct (exists_at (disk s) p) eqn:E; [apply lookup_rm_rf|].
  destruct (under p q) as [r|] eqn:U; [|reflexivity].
  apply under_Some in U as ->. apply Hc.
  unfold exists_at, stat in E. destruct p; [discriminate|].
  by destruct (disk s !! (s0 :: p)).
Qed.

Lemma copyDir_Ok (src dest : path) (s s' : state) :
  copyDir src dest s = Ok tt s' -> forall q, disk s' !! q = copied src dest (disk s) q.
Proof.
  unfold copyDir, bind, existsSync, copied.
  destruct (exists_at (disk s) src); simpl.
  - intros H q. apply call_Ok in H as (fs' & H & ->). simpl.
    by apply lookup_cpSync.
  - by intros [= <-].
Qed.

Lemma mkdirp_Ok (p : path) (s s' : state) :
  call Mkdir p (mkdirp p) s = Ok tt s' -> forall q, disk s' !! q = made p (disk s) q.
Proof.
  intros H q. apply call_Ok in H as (fs' & H & ->). simpl. by apply lookup_mkdirp.
Qed.

Lemma mkdir_Ok (p : path) (s s' : state) :
  call Mkdir p (mkdir p) s = Ok tt s' ->
  forall q, disk s' !! q = mkdired p (disk s) q.
Proof.
  intros H q. apply call_Ok in H as (fs' & H & ->). simpl. unfold mkdired.
  unfold mkdir in H. destruct (stat (disk s) p); [discriminate|].
  destruct (is_dir (disk s) (parent p)); [|discriminate]. injection H as <-.
  destruct (under p q) as [[|c r]|] eqn:U.
  - apply under_Some in U. rewrite app_nil_r in U. subst. apply lookup_insert_eq.
  - apply lookup_insert_ne. intros ->. rewrite under_refl in U. discriminate.
  - apply lookup_insert_ne. intros ->. rewrite under_refl in U. discriminate.
Qed.

Lemma copied_other (src dest : path) (fs : FS) (q : path) :
  under dest q = None -> is_prefix q (parent dest) = false ->
  copied src dest fs q = fs !! q.
Proof.
  intros U P. unfold copied, made. rewrite U, P.
  destruct (exists_at fs src); by destruct q.
Qed.

Lemma copied_at (src dest : path) (fs : FS) (q r : path) :
  under dest q = Some r -> is_prefix q (parent dest) = false ->
  copied src dest fs q = orelse (from fs src r) (fs !! q).
Proof.
  intros U P. unfold copied, made, from, orelse. rewrite U, P.
  destruct (exists_at fs src); [|reflexivity].
  destruct (fs !! (src ++ r)); [reflexivity|]. by destruct q.
Qed.

Lemma copied_above (src dest : path) (fs : FS) (c : string) (q : path) :
  under dest (c :: q) = None -> is_prefix (c :: q) (parent dest) = true ->
  copied src dest fs (c :: q) = if exists_at fs src then Some EDir else fs !! (c :: q).
Proof. intros U P. unfold copied, made. by rewrite U, P. Qed.

Lemma made_other (p : path) (fs : FS) (q : path) :
  is_prefix q p = false -> made p fs q = fs !! q.
Proof. intros P. unfold made. rewrite P. by destruct q. Qed.

Lemma made_above (p : path) (fs : FS) (c : string) (q : path) :
  is_prefix (c :: q) p = true -> made p fs (c :: q) = Some EDir.
Proof. intros P. unfold made. by rewrite P. Qed.

(** A directory survives a copy: a file is never copied over it. *)
Lemma copyDir_keeps_dir (src dest : path) (s s' : state) (c : string) (q : path) :
  copyDir src dest s = Ok tt s' ->
  disk s !! (c :: q) = Some EDir -> disk s' !! (c :: q) = Some EDir.
Proof.
  unfold copyDir, bind, existsSync.
  destruct (exists_at (disk s) src); simpl; [|by intros [= <-]].
  intros H Hd. apply call_Ok in H as (fs' & H & ->). simpl.
  rewrite (lookup_cpSync _ _ _ _ _ H).
  assert (Hm : made (parent dest) (disk s) (c :: q) = Some EDir).
  { unfold made. by destruct (is_prefix (c :: q) (parent dest)). }
  rewrite Hm.
  destruct (under dest (c :: q)) as [r|] eqn:U; [|reflexivity].
  destruct (disk s !! (src ++ r)) as [e|] eqn:E; [|reflexivity].
  unfold cpSync in H. destruct (stat (disk s) src); [|discriminate].
  destruct (is_prefix src dest); [discriminate|].
  destruct (mkdirp (parent dest) (disk s)) as [fs1|] eqn:Hmk; [|discriminate].
  case_bool_decide as Hall; [|discriminate].
  specialize (Hall _ _ E). unfold lands in Hall. rewrite under_app in Hall.
  apply under_Some in U. rewrite <- U in Hall. simpl in Hall.
  rewrite (lookup_mkdirp _ _ _ _ Hmk), Hm in Hall. by destruct e.
Qed.

Lemma copyDir_keeps (src dest : path) (s s' : state) (q : path) :
  copyDir src dest s = Ok tt s' ->
  is_Some (disk s !! q) -> is_Some (disk s' !! q).
Proof.
  intros H [e He]. rewrite (copyDir_Ok _ _ _ _ H). unfold copied.
  assert (Hm : is_Some (made (parent dest) (disk s) q)).
  { unfold made. destruct q; [by rewrite He|].
    destruct (is_prefix _ _); [eauto|by rewrite He]. }
  destruct (exists_at (disk s) src); [|by rewrite He].
  destruct (under dest q); [|done]. by destruct (disk s !! (src ++ l)).
Qed.


Lemma made_keeps_dir (p : path) (fs : FS) (q : path) :
  fs !! q = Some EDir -> made p fs q = Some EDir.
Proof. intros H. unfold made. destruct q; [done|]. by destruct (is_prefix _ _). Qed.

Lemma made_keeps (p : path) (fs : FS) (q : path) :
  is_Some (fs !! q) -> is_Some (made p fs q).
Proof. intros H. unfold made. destruct q; [done|]. destruct (is_prefix _ _); eauto. Qed.

Lemma mkdired_keeps_dir (p : path) (fs : FS) (q : path) :
  fs !! q = Some EDir -> mkdired p fs q = Some EDir.
Proof. intros H. unfold mkdired. by destruct (under p q) as [[|]|]. Qed.

Lemma mkdired_keeps (p : path) (fs : FS) (q : path) :
  is_Some (fs !! q) -> is_Some (mkdired p fs q).
Proof. intros H. unfold mkdired. destruct (under p q) as [[|]|]; eauto. Qed.

Lemma cleared_other (p : path) (fs : FS) (q : path) :
  under p q = None -> cleared p fs q = fs !! q.
Proof. intros U. unfold cleared. by rewrite U. Qed.

Lemma orelse_None (a : option entry) : orelse a None = a.
Proof. by destruct a. Qed.

Lemma is_Some_orelse (a b : option entry) :
  is_Some (orelse a b) <-> is_Some a \/ is_Some b.
Proof.
  destruct a as [e|]; simpl; [split; eauto|].
  split; [eauto|]. intros [[? ?]|?]; [discriminate|done].
Qed.

(** *** The assembler, statement by statement *)

Ltac invert_binds H :=
  repeat match type of H with
         | bind ?m ?k ?s = Ok _ _ =>
             let a := fresh "a" in
             let s1 := fresh "s" in
             let Hm := fresh "Hm" in
             apply bind_Ok in H as (a & s1 & Hm & H)
         end.

(** Turns the statements of the assembler that ran into equations for the
    lookups of the states they produced; a copy also yields that directories
    and entries that were there are still there. *)
Ltac digest :=
  repeat match goal with
         | a : unit |- _ => destruct a
         | H : print _ _ = Ok _ _ |- _ =>
             let L := fresh "L" in pose proof (print_Ok _ _ _ H) as L; clear H
         | H : ret _ _ = Ok _ _ |- _ => injection H as <-
         | H : copyDir _ _ _ = Ok _ _ |- _ =>
             let L := fresh "L" in
             let KD := fresh "KD" in
             let KE := fresh "KE" in
             pose proof (copyDir_Ok _ _ _ _ H) as L;
             pose proof (fun c q => copyDir_keeps_dir _ _ _ _ c q H) as KD;
             pose proof (fun q => copyDir_keeps _ _ _ _ q H) as KE;
             clear H
         | H : call Mkdir _ (mkdirp _) _ = Ok _ _ |- _ =>
             let L := fresh "L" in pose proof (mkdirp_Ok _ _ _ H) as L; clear H
         | H : call Mkdir _ (mkdir _) _ = Ok _ _ |- _ =>
             let L := fresh "L" in pose proof (mkdir_Ok _ _ _ H) as L; clear H
         end.

Ltac simp_path :=
  unfold is_prefix; cbn [under parent removelast app];
  repeat match goal with
         | E : String.eqb _ _ = false |- _ => rewrite E
         end;
  cbn [String.eqb Ascii.eqb Bool.eqb].

Ltac decide_path := simp_path; reflexivity.

Ltac step_copied :=
  first [ rewrite copied_other by decide_path
        | erewrite copied_at by decide_path
        | rewrite copied_above by decide_path ].

Ltac step_made :=
  first [ rewrite made_other by decide_path
        | rewrite made_above by decide_path ].

Ltac step_state :=
  match goal with
  | H : forall q, disk ?s !! q = _ |- context [disk ?s !! _] => rewrite !H
  end.

(** Rewrites every lookup in a later state into lookups in the first one. *)
Ltac back_raw :=
  unfold from, exists_at; cbn [stat app];
  repeat (first [ step_copied | step_made
                | progress (unfold cleared, mkdired; simp_path)
                | step_state ];
          unfold from, exists_at; cbn [stat app]).

(** [frame_of s0 si]: what lies in the staging root outside [extract/dist]
    is in state [si] what it was in state [s0]. *)
Ltac frame_via L sj s0 si :=
  let F := fresh "F" in
  assert (F : forall c2 rest,
             String.eqb "dist" c2 = false -> String.eqb c2 "dist" = false ->
             disk si !! ("extract" :: c2 :: rest) = disk s0 !! ("extract" :: c2 :: rest));
  [ intros ? ? ? ?; rewrite L;
    try first [ rewrite copied_other by decide_path
              | rewrite made_other by decide_path
              | rewrite cleared_other by decide_path
              | unfold mkdired; simp_path ];
    first [ reflexivity
          | match goal with
            | Fj : forall c2 rest, _ -> _ -> disk sj !! _ = disk s0 !! _ |- _ =>
                apply Fj; assumption
            end ]
  | ].

Ltac frame_of s0 si :=
  tryif constr_eq si s0 then idtac else
  lazymatch goal with
  | _ : forall c2 rest, _ -> _ -> disk si !! _ = disk s0 !! _ |- _ => idtac
  | L : forall q, disk si !! q = copied _ _ (disk ?sj) q |- _ =>
      frame_of s0 sj; frame_via L sj s0 si
  | L : forall q, disk si !! q = made _ (disk ?sj) q |- _ =>
      frame_of s0 sj; frame_via L sj s0 si
  | L : forall q, disk si !! q = cleared _ (disk ?sj) q |- _ =>
      frame_of s0 sj; frame_via L sj s0 si
  | L : forall q, disk si !! q = mkdired _ (disk ?sj) q |- _ =>
      frame_of s0 sj; frame_via L sj s0 si
  | L : forall q, disk si !! q = disk ?sj !! q |- _ =>
      frame_of s0 sj; frame_via L sj s0 si
  end.

Ltac frame_from s0 :=
  match goal with
  | |- context [from (disk ?si) ?src ?r] =>
      tryif constr_eq si s0 then fail
      else (frame_of s0 si;
            rewrite (from_frame (disk si) (disk s0) src r)
              by first [ discriminate
                       | cbn [app];
                         match goal with
                         | F : forall c2 rest, _ -> _ -> disk si !! _ = disk s0 !! _ |- _ =>
                             apply F; reflexivity
                         end ])
  end.

Ltac back s0 :=
  cbn [app];
  repeat (first [ frame_from s0 | step_copied | step_made
                | progress (unfold cleared, mkdired; simp_path)
                | step_state ];
          cbn [app]).

(** [dir_of si p]: [p] is a directory in state [si]. *)
Ltac dir_of si p :=
  lazymatch goal with
  | _ : disk si !! p = Some EDir |- _ => idtac
  | L : forall q, disk si !! q = made _ (disk ?sj) q |- _ =>
      first [ assert (disk si !! p = Some EDir)
                by (rewrite L; apply made_above; decide_path)
            | dir_of sj p;
              assert (disk si !! p = Some EDir)
                by (rewrite L; apply made_keeps_dir; assumption) ]
  | L : forall q, disk si !! q = copied _ _ (disk ?sj) q,
    K : forall c q, disk ?sj !! (c :: q) = Some EDir -> disk si !! (c :: q) = Some EDir |- _ =>
      dir_of sj p;
      assert (disk si !! p = Some EDir) by (apply K; assumption)
  | L : forall q, disk si !! q = cleared _ (disk ?sj) q |- _ =>
      dir_of sj p;
      assert (disk si !! p = Some EDir)
        by (rewrite L, cleared_other by decide_path; assumption)
  | L : forall q, disk si !! q = mkdired _ (disk ?sj) q |- _ =>
      dir_of sj p;
      assert (disk si !! p = Some EDir)
        by (rewrite L; apply mkdired_keeps_dir; assumption)
  | L : forall q, disk si !! q = disk ?sj !! q |- _ =>
      dir_of sj p;
      assert (disk si !! p = Some EDir) by (rewrite L; assumption)
  end.

Ltac prepare H :=
  cbn [for_each androidTargets] in H;
  cbv [String.append] in H;
  cbn [join List.filter negb String.eqb Ascii.eqb Bool.eqb app] in H.

Ltac clear_step s p :=
  match goal with
  | H : bind (existsSync p) _ ?s0 = Ok _ _ |- _ =>
      let C := fresh "C" in
      let L := fresh "L" in
      assert (C : closed p (disk s0));
      [ apply (closed_ext _ (disk s));
        [intros ?; back_raw; reflexivity|by apply tree_closed]
      | pose proof (clear_lookup _ _ _ C H) as L; clear H C ]
  end.

(** Runs the assembler symbolically: afterwards the context holds one
    equation per statement, and [extract/dist] is known to be a directory
    where the final copy starts. *)
Ltac assemble s H :=
  unfold setupIndependentRust in H;
  destruct (String.eqb (platform _) "linux") eqn:?;
  prepare H; invert_binds H;
  try match goal with
      | H : bind (print LogCopyingAndroid) _ _ = _ |- _ => invert_binds H
      end;
  digest; clear_step s ["extract"; "dist"]; clear_step s ["dist"].

Ltac through_final_copy s :=
  match goal with
  | H : forall q, disk _ !! q = copied ["extract"; "dist"] ["dist"] (disk ?s12) q |- _ =>
      dir_of s12 ["extract"; "dist"];
      back s; unfold from at 1, exists_at, stat;
      match goal with D : disk s12 !! ["extract"; "dist"] = Some EDir |- _ => rewrite D end
  end.

(** What the assembler puts at [dist/lib/rustlib/<name>]: the entry of that
    name staged by the Android archive for it (on Linux), else the one staged
    by the host's standard-library archive, else the one staged below the
    compiler's [lib]. *)
Lemma assembled_rustlib (w : World) (s s' : state) (name : string) :
  tree (disk s) ->
  setupIndependentRust w ["extract"] s = Ok tt s' ->
  disk s' !! ["dist"; "lib"; "rustlib"; name] =
  orelse
    (if String.eqb (platform w) "linux" && bool_decide (name ∈ androidTargets)
     then from (disk s) ["extract"; "rust-std-" +:+ name; "lib"; "rustlib"; name] []
     else None)
    (orelse
       (from (disk s)
          ["extract"; "rust-std-" +:+ targetTriple (platformKey w); "lib"; "rustlib"]
          [name])
       (from (disk s) ["extract"; "rustc"; "lib"] ["rustlib"; name])).
Proof.
  intros Htree H.
  set (host := targetTriple (platformKey w)) in *.
  assemble s H; cbv [String.append]; cbn [andb].
  - destruct (String.eqb_spec "i686-linux-android" name) as [<-|E1%String.eqb_neq];
    [|destruct (String.eqb_spec "x86_64-linux-android" name) as [<-|E2%String.eqb_neq];
      [|destruct (String.eqb_spec "armv7-linux-androideabi" name) as [<-|E3%String.eqb_neq];
        [|destruct (String.eqb_spec "aarch64-linux-android" name) as [<-|E4%String.eqb_neq]]]].
    1-4: rewrite bool_decide_eq_true_2 by (unfold androidTargets; repeat constructor).
    5: rewrite bool_decide_eq_false_2
         by (apply String.eqb_neq in E1, E2, E3, E4; unfold androidTargets;
             intros Hin;
             repeat (apply elem_of_cons in Hin as [Hin|Hin]; [congruence|]);
             by apply elem_of_nil in Hin).
    all: through_final_copy s; back s; rewrite ?orelse_None; reflexivity.
  - through_final_copy s. back s. rewrite ?orelse_None. reflexivity.
Qed.


(** What the assembler puts at [dist/bin/<name>]: the entry of that name in
    the package manager's [bin], else the one in the compiler's [bin]. *)
Lemma assembled_bin (w : World) (s s' : state) (name : string) :
  tree (disk s) ->
  setupIndependentRust w ["extract"] s = Ok tt s' ->
  disk s' !! ["dist"; "bin"; name] =
  orelse (from (disk s) ["extract"; "cargo"; "bin"] [name])
         (from (disk s) ["extract"; "rustc"; "bin"] [name]).
Proof.
  intros Htree H.
  assemble s H; through_final_copy s; back s; rewrite ?orelse_None; reflexivity.
Qed.



(** *** From lookups to staged and installed entries *)

Lemma is_Some_from (fs : FS) (src r : path) :
  tree fs -> src <> [] -> r <> [] ->
  is_Some (from fs src r) <-> is_Some (fs !! (src ++ r)).
Proof. intros. by rewrite from_tree. Qed.



(** The names below [dist/lib/rustlib] after an assembly. *)
Lemma installed_rustlib (w : World) (s s' : state) (name : string) :
  tree (disk s) ->
  setupIndependentRust w ["extract"] s = Ok tt s' ->
  installed s' ["lib"; "rustlib"; name] <->
  staged s ["rustc"; "lib"; "rustlib"; name] \/
  staged s (std_rustlib (targetTriple (platformKey w)) ++ [name]) \/
  name ∈ (if String.eqb (platform w) "linux" then staged_android s else []).
Proof.
  intros Htree H. unfold installed, staged, staged_android, std_rustlib.
  rewrite (assembled_rustlib _ _ _ _ Htree H).
  rewrite !is_Some_orelse, !is_Some_from by done.
  cbn [app].
  destruct (String.eqb (platform w) "linux"); cbn [andb].
  - case_bool_decide as Hand.
    + rewrite from_nil by done. rewrite list_elem_of_filter. unfold staged. cbn [app].
      tauto.
    + rewrite list_elem_of_filter. split.
      * intros [[? ?]|[?|?]]; [discriminate|tauto..].
      * intros [?|[?|[_ ?]]]; [tauto..|contradiction].
  - split.
    + intros [[? ?]|[?|?]]; [discriminate|tauto..].
    + intros [?|[?|Hin]]; [tauto..|by apply elem_of_nil in Hin].
Qed.


(** *** What is fetched *)

Lemma fetched_app (a b : list message) : fetched (a ++ b) = fetched a ++ fetched b.
Proof. apply omap_app. Qed.

(** A computation that leaves the console alone emits nothing. *)
Lemma emits_silent {A} (m : M A) :
  (forall s, console (final_state (m s)) = console s) -> emits m [].
Proof.
  intros H s. exists []. rewrite H, app_nil_r. done.
Qed.

(** A computation that never returns may be said to emit any list it does
    not get to. *)
Lemma emits_stuck {A} (m : M A) (urls : list string) :
  (forall s, console (final_state (m s)) = console s) ->
  (forall s a s', m s <> Ok a s') ->
  emits m urls.
Proof.
  intros H Hno s. exists []. rewrite H, app_nil_r.
  split; [apply prefix_nil|]. split; [done|]. intros a s' E. by destruct (Hno s a s').
Qed.

Lemma emits_ret {A} (a : A) : emits (ret a) [].
Proof. by apply emits_silent. Qed.

Lemma emits_throw {A} (e : error) (urls : list string) : emits (@throw A e) urls.
Proof. by apply emits_stuck. Qed.

Lemma emits_process_exit {A} (code : Z) (urls : list string) :
  emits (@process_exit A code) urls.
Proof. by apply emits_stuck. Qed.

Lemma emits_print (m : message) : emits (print m) (fetched [m]).
Proof.
  intros s. exists (fetched [m]). simpl. by rewrite fetched_app.
Qed.

Lemma emits_call (c : syscall) (p : path) (op : FS -> sys FS) : emits (call c p op) [].
Proof. apply emits_silent. intros s. unfold call. by destruct (op (disk s)). Qed.

Lemma emits_existsSync (p : path) : emits (existsSync p) [].
Proof. by apply emits_silent. Qed.

Lemma emits_rmSync (p : path) : emits (rmSync p) [].
Proof. by apply emits_silent. Qed.

Lemma emits_bind {A B} (m : M A) (k : A -> M B) (l1 l2 : list string) :
  emits m l1 -> (forall a, emits (k a) l2) -> emits (bind m k) (l1 ++ l2).
Proof.
  intros Hm Hk s. destruct (Hm s) as (r1 & P1 & E1 & O1). unfold bind.
  destruct (m s) as [a s1|e s1|h s1] eqn:E; simpl in *.
  - destruct (Hk a s1) as (r2 & P2 & E2 & O2).
    rewrite (O1 _ _ eq_refl) in E1.
    exists (l1 ++ r2). split; [by apply prefix_app|].
    split; [by rewrite E2, E1, app_assoc|].
    intros b s' Hb. by rewrite (O2 _ _ Hb).
  - exists r1. split; [by apply prefix_app_r|]. split; [done|]. discriminate.
  - exists r1. split; [by apply prefix_app_r|]. split; [done|]. discriminate.
Qed.

Lemma emits_bind_silent {A B} (m : M A) (k : A -> M B) (l : list string) :
  emits m [] -> (forall a, emits (k a) l) -> emits (bind m k) l.
Proof. intros. by apply (emits_bind m k [] l). Qed.

Lemma emits_when (b : bool) (m : M unit) : emits m [] -> emits (when b m) [].
Proof. destruct b; [done|]. intros _. apply emits_ret. Qed.

Lemma emits_for_each (l : list string) (body : string -> M unit) :
  (forall url, emits (body url) [url]) -> emits (for_each l body) l.
Proof.
  intros Hb. induction l as [|url l IH]; simpl; [apply emits_ret|].
  apply (emits_bind _ _ [url] l); auto.
Qed.

Lemma emits_for_each_silent {A} (l : list A) (body : A -> M unit) :
  (forall x, emits (body x) []) -> emits (for_each l body) [].
Proof.
  intros Hb. induction l as [|x l IH]; simpl; [apply emits_ret|].
  apply emits_bind_silent; auto.
Qed.

(** A handler that never returns adds nothing to what the body emitted. *)
Lemma emits_try_catch {A} (body : M A) (handler : error -> M A) (urls : list string) :
  emits body urls ->
  (forall e, emits (handler e) []) ->
  (forall e s a s', handler e s <> Ok a s') ->
  emits (try_catch body handler) urls.
Proof.
  intros Hb Hh Hno s. destruct (Hb s) as (r1 & P1 & E1 & O1). unfold try_catch.
  destruct (body s) as [a s1|e s1|h s1] eqn:E; simpl in *.
  - exists r1. eauto.
  - destruct (Hh e s1) as (r2 & P2 & E2 & _).
    apply prefix_nil_inv in P2 as ->. rewrite app_nil_r in E2.
    exists r1. split; [done|]. split; [by rewrite E2|].
    intros a s' Hok. by destruct (Hno e s1 a s').
  - exists r1. split; [done|]. split; [done|]. discriminate.
Qed.

Lemma emits_detached {A} (m : M A) (urls : list string) :
  emits m urls -> emits (detached m) urls.
Proof.
  intros Hm s. destruct (Hm s) as (r & P & E & O). unfold detached.
  destruct (m s) as [a s1|e s1|h s1] eqn:Em; simpl in *; exists r; eauto.
  split; [done|]. split; [done|]. discriminate.
Qed.

Lemma emits_copyDir (src dest : path) : emits (copyDir src dest) [].
Proof.
  unfold copyDir. apply emits_bind_silent; [apply emits_existsSync|].
  intros found. destruct (negb found); [apply emits_print|apply emits_call].
Qed.

Ltac emits_nothing :=
  repeat first
    [ apply emits_copyDir
    | apply emits_for_each_silent; intros ?
    | apply emits_print
    | apply emits_ret
    | apply emits_existsSync
    | apply emits_rmSync
    | apply emits_when
    | apply emits_call
    | match goal with |- emits (if ?b then _ else _) _ => destruct b end
    | apply emits_bind_silent; [|intros ?] ].

Lemma emits_setupIndependentRust (w : World) (unpackedPath : path) :
  emits (setupIndependentRust w unpackedPath) [].
Proof. unfold setupIndependentRust. emits_nothing. Qed.

Lemma fetched_pump (w : World) (p : path) (total : N) (cs : list (list byte))
    (received : N) (flushed : nat) (broken : bool) (s : state) :
  fetched (console (final_state (pump w p total cs received flushed broken s))) =
  fetched (console s).
Proof.
  revert received flushed broken s.
  induction cs as [|c cs IH]; intros received flushed broken s; simpl; [done|].
  destruct broken; [done|].
  rewrite IH. simpl. rewrite fetched_app. simpl.
  destruct (total =? 0)%N; simpl; by rewrite app_nil_r.
Qed.

(** The read loop returns or ends the process; it throws nothing. *)
Lemma pump_no_throw (w : World) (p : path) (total : N) (cs : list (list byte))
    (received : N) (flushed : nat) (broken : bool) (s : state) (e : error) (s' : state) :
  pump w p total cs received flushed broken s <> Throw e s'.
Proof.
  revert received flushed broken s.
  induction cs as [|c cs IH]; intros received flushed broken s; simpl; [done|].
  destruct broken; [done|]. apply IH.
Qed.

Lemma emits_stream_to (w : World) (p : path) (name : string) (r : response) :
  emits (stream_to w p name r) [].
Proof.
  intros s. exists []. rewrite app_nil_r. split; [done|]. split; [|done].
  unfold stream_to.
  destruct (open_write p (disk s)) as [fs'|];
    match goal with
    | |- context [pump w p ?t ?cs ?rc ?fl ?b ?s0] =>
        pose proof (fetched_pump w p t cs rc fl b s0) as Hp;
        destruct (pump w p t cs rc fl b s0) as [broken' s1|e0 s1|h s1]
    end;
    simpl in Hp; rewrite fetched_app in Hp; simpl in Hp; rewrite app_nil_r in Hp;
    try done; destruct (aborted r); try done; by destruct broken'.
Qed.

Lemma emits_spawn_tar (w : World) (archive dir : path) : emits (spawn_tar w archive dir) [].
Proof.
  apply emits_silent. intros s. unfold spawn_tar.
  destruct (stat (disk s) archive) as [[m bytes|]|]; [|done..].
  by destruct (tar w bytes _).
Qed.

Lemma emits_settle (w : World) (url name : string) (p q : path) (broken : bool) :
  emits (settle w url name p q broken) [].
Proof.
  unfold settle. destruct broken; [apply emits_throw|].
  apply emits_bind_silent; [apply emits_print|intros _].
  apply emits_bind_silent; [apply emits_print|intros _].
  apply emits_bind_silent; [apply emits_spawn_tar|intros code].
  destruct (negb (code =? 0)); [apply emits_throw|].
  apply emits_detached, emits_call.
Qed.

(** A download prints one [Fetching] line, for its URL: none if it stops
    before it gets there. *)
Lemma emits_downloadAndExtract (w : World) (url : string) (extractPath : path) :
  emits (downloadAndExtract w url extractPath) [url].
Proof.
  unfold downloadAndExtract. destruct (url_basename w url) as [name|]; [|apply emits_throw].
  apply emits_bind_silent.
  { apply emits_bind_silent; [apply emits_existsSync|intros found].
    apply emits_when, emits_call. }
  intros _. apply (emits_bind _ _ [url] []).
  - apply emits_try_catch.
    + apply (emits_bind _ _ [url] []); [apply emits_print|intros _].
      destruct (fetch w url) as [reason|r]; [apply emits_throw|].
      destruct (negb (ok r)); [apply emits_throw|apply emits_stream_to].
    + intros e. apply emits_bind_silent; [apply emits_print|intros _].
      apply emits_bind_silent; [|intros _; apply emits_throw].
      apply emits_bind_silent; [apply emits_existsSync|intros found].
      apply emits_when, emits_call.
    + intros e s a s' H. unfold bind, print in H. simpl in H.
      destruct (exists_at _ _); simpl in H; [|discriminate].
      unfold call in H. simpl in H. by destruct (rm _ _).
  - intros promise. apply emits_settle.
Qed.

(** What [run] fetches: the toolchain archive of the platform, then, on
    Linux, the Android archives in their order; an initial part of that when
    it fails on the way. *)
Lemma emits_run (w : World) (mainUrl : string) :
  truthy (PLATFORMS !! platformKey w) = Some mainUrl ->
  emits (run w)
        (mainUrl :: (if String.eqb (platform w) "linux" then ANDROID_STDS else [])).
Proof.
  intros Hurl. unfold run. rewrite Hurl.
  apply emits_bind_silent.
  { apply emits_bind_silent; [apply emits_existsSync|intros found].
    apply emits_when, emits_rmSync. }
  intros _. apply emits_bind_silent; [apply emits_call|intros _].
  apply emits_try_catch.
  - apply (emits_bind _ _ [mainUrl]); [apply emits_downloadAndExtract|intros _].
    rewrite <- (app_nil_r (if String.eqb (platform w) "linux" then ANDROID_STDS else [])).
    apply emits_bind.
    + destruct (String.eqb (platform w) "linux"); [|apply emits_ret].
      apply emits_bind_silent; [apply emits_print|intros _].
      apply emits_for_each. intros url. apply emits_downloadAndExtract.
    + intros _. apply emits_bind_silent; [apply emits_setupIndependentRust|intros _].
      apply emits_bind_silent; [apply emits_existsSync|intros found].
      destruct found; [|apply emits_ret].
      apply emits_bind_silent; [apply emits_call|intros _]. apply emits_print.
  - intros e. apply emits_bind_silent; [apply emits_print|intros _].
    apply emits_process_exit.
  - intros e s a s' H. discriminate.
Qed.


(** *** What can be thrown *)

Lemma throws_only_bind {A B} (P : error -> Prop) (m : M A) (k : A -> M B) :
  throws_only P m -> (forall a, throws_only P (k a)) -> throws_only P (bind m k).
Proof.
  intros Hm Hk s e s' H. apply bind_Throw in H as [H|(a & s1 & _ & H)].
  - exact (Hm _ _ _ H).
  - exact (Hk _ _ _ _ H).
Qed.

Lemma throws_only_never {A} (P : error -> Prop) (m : M A) :
  (forall s e s', m s <> Throw e s') -> throws_only P m.
Proof. intros Hno s e s' H. by destruct (Hno s e s'). Qed.

Lemma throws_only_throw {A} (P : error -> Prop) (e : error) :
  P e -> throws_only P (@throw A e).
Proof. intros He s e' s' [= <- _]. exact He. Qed.

Lemma throws_only_call (P : error -> Prop) (c : syscall) (p : path) (op : FS -> sys FS) :
  (forall code, P (SysError c code p)) -> throws_only P (call c p op).
Proof.
  intros Hp s e s'. unfold call. destruct (op (disk s)); [discriminate|].
  intros [= <- _]. apply Hp.
Qed.

Lemma throws_only_when (P : error -> Prop) (b : bool) (m : M unit) :
  throws_only P m -> throws_only P (when b m).
Proof. destruct b; [done|]. intros _. by apply throws_only_never. Qed.

Lemma throws_only_try_catch {A} (P : error -> Prop) (body : M A) (handler : error -> M A) :
  throws_only P body ->
  (forall e, P e -> throws_only P (handler e)) ->
  throws_only P (try_catch body handler).
Proof.
  intros Hb Hh s e s'. unfold try_catch.
  destruct (body s) as [a s1|e1 s1|h s1] eqn:E; [discriminate| |discriminate].
  intros H. exact (Hh e1 (Hb _ _ _ E) _ _ _ H).
Qed.

Lemma throws_only_detached {A} (P : error -> Prop) (m : M A) : throws_only P (detached m).
Proof. intros s e s'. unfold detached. by destruct (m s). Qed.

Lemma throws_only_stream_to (w : World) (p : path) (name : string) (r : response) :
  throws_only not_empty_download (stream_to w p name r).
Proof.
  intros s e s'. unfold stream_to.
  destruct (open_write p (disk s));
    match goal with
    | |- context [pump w p ?t ?cs ?rc ?fl ?b ?s0] =>
        pose proof (pump_no_throw w p t cs rc fl b s0) as Hp;
        destruct (pump w p t cs rc fl b s0) as [broken' s1|e1 s1|h s1]
    end;
    try discriminate; try (by destruct (Hp e1 s1));
    destruct (aborted r); try discriminate;
    destruct broken'; try discriminate; by intros [= <- _].
Qed.

Lemma throws_only_spawn_tar (P : error -> Prop) (w : World) (archive dir : path) :
  throws_only P (spawn_tar w archive dir).
Proof.
  apply throws_only_never. intros s e s'. unfold spawn_tar.
  destruct (stat (disk s) archive) as [[m bytes|]|]; [|done..].
  by destruct (tar w bytes _).
Qed.

(** Nothing in [downloadAndExtract] throws the empty-download error. *)
Lemma throws_only_downloadAndExtract (w : World) (url : string) (extractPath : path) :
  throws_only not_empty_download (downloadAndExtract w url extractPath).
Proof.
  unfold downloadAndExtract.
  destruct (url_basename w url) as [name|]; [|by apply throws_only_throw].
  apply throws_only_bind.
  { apply throws_only_bind; [by apply throws_only_never|intros found].
    by apply throws_only_when, throws_only_call. }
  intros _. apply throws_only_bind.
  - apply throws_only_try_catch.
    + apply throws_only_bind; [by apply throws_only_never|intros _].
      destruct (fetch w url) as [reason|r]; [by apply throws_only_throw|].
      destruct (negb (ok r)); [by apply throws_only_throw|apply throws_only_stream_to].
    + intros e He. apply throws_only_bind; [by apply throws_only_never|intros _].
      apply throws_only_bind; [|intros _; by apply throws_only_throw].
      apply throws_only_bind; [by apply throws_only_never|intros found].
      by apply throws_only_when, throws_only_call.
  - intros promise. unfold settle.
    destruct promise; [by apply throws_only_throw|].
    apply throws_only_bind; [by apply throws_only_never|intros _].
    apply throws_only_bind; [by apply throws_only_never|intros _].
    apply throws_only_bind; [apply throws_only_spawn_tar|intros code].
    destruct (negb (code =? 0)); [by apply throws_only_throw|].
    apply throws_only_detached.
Qed.


(** * Further laws of the model *)

(** *** Results *)

Lemma halted_Halt {A} (r : result A) (h : halt) :
  halted r = Some h -> r = Halt h (final_state r).
Proof. destruct r; simpl; congruence. Qed.

(** *** The write stream *)

Lemma lookup_append (p q : path) (bytes : list byte) (fs : FS) :
  append p bytes fs !! q = if decide (q = p) then grown bytes (fs !! p) else fs !! q.
Proof.
  unfold append. case_decide as E.
  - subst q. rewrite lookup_alter_eq. by destruct (fs !! p) as [[m x|]|].
  - by rewrite lookup_alter_ne.
Qed.

Lemma grown_nil (e : option entry) : grown [] e = e.
Proof. destruct e as [[m x|]|]; simpl; by rewrite ?app_nil_r. Qed.

Lemma grown_app (a b : list byte) (e : option entry) :
  grown b (grown a e) = grown (a ++ b) e.
Proof. destruct e as [[m x|]|]; simpl; by rewrite ?app_assoc. Qed.

(** The loop entered with a stream that has failed: it is left at once when
    the body has ended, and the process ends when a chunk is still to come. *)
Lemma pump_failed (w : World) (p : path) (total : N) (cs : list (list byte))
    (received : N) (flushed : nat) (s : state) :
  pump w p total cs received flushed true s =
  match cs with
  | [] => Ok true s
  | _ :: _ => Halt (Uncaught (StreamError p)) s
  end.
Proof. by destruct cs. Qed.

(** The loop entered with a working stream that takes [j] more chunks.  The
    chunks before the failure are flushed to the file, and nothing to any
    other path; one progress line is printed for each of them and for the
    chunk the stream fails on; the process ends when another chunk comes
    after that one. *)
Lemma pump_working (w : World) (p : path) (total : N) (cs : list (list byte))
    (received : N) (flushed : nat) (s : state) :
  let j := match disk_fault w p with
           | Some k => (k - flushed)%nat
           | None => length cs
           end in
  exists s1,
    pump w p total cs received flushed false s =
      (if (S j <? length cs)%nat then Halt (Uncaught (StreamError p)) s1
       else Ok (j <? length cs)%nat s1) /\
    console s1 =
      console s ++ map (progress_line total) (take (S j) (totals received cs)) /\
    forall q, disk s1 !! q =
              if decide (q = p) then grown (concat (take j cs)) (disk s !! p)
              else disk s !! q.
Proof.
  revert received flushed s.
  induction cs as [|c cs IH]; intros received flushed s j.
  - exists s. split; [reflexivity|]. split.
    + cbn [totals]. by rewrite take_nil, app_nil_r.
    + intros q. rewrite take_nil. cbn [concat]. rewrite grown_nil. by case_decide; subst.
  - cbn [pump].
    set (line := if (total =? 0)%N then _ else _).
    assert (Hline : line = progress_line total (received + N.of_nat (length c))%N)
      by reflexivity.
    destruct (disk_fault w p) as [k|] eqn:F.
    + destruct (Nat.leb_spec k flushed) as [Hk|Hk].
      * subst j. replace (k - flushed)%nat with 0%nat by lia.
        rewrite pump_failed. eexists. split; [by destruct cs|].
        cbn [console disk totals take map concat]. rewrite Hline. split; [done|].
        intros q. rewrite grown_nil. by case_decide; subst.
      * destruct (IH (received + N.of_nat (length c))%N (S flushed)
                    (State (append p c (disk s)) (console s ++ [line])))
          as (s1 & E & Hc & Hd).
        subst j.
        destruct (k - flushed)%nat as [|n] eqn:En; [lia|].
        replace (k - S flushed)%nat with n in * by lia.
        exists s1. split; [exact E|]. cbn [console disk] in *. split.
        -- rewrite Hc, <- app_assoc, Hline. reflexivity.
        -- intros q. rewrite Hd. cbn [take concat]. case_decide as Eq.
           ++ subst q. by rewrite lookup_append, decide_True, grown_app.
           ++ by rewrite lookup_append, decide_False.
    + destruct (IH (received + N.of_nat (length c))%N (S flushed)
                  (State (append p c (disk s)) (console s ++ [line])))
        as (s1 & E & Hc & Hd).
      subst j.
      exists s1. split; [exact E|]. cbn [console disk length] in *. split.
      * rewrite Hc, <- app_assoc, Hline. reflexivity.
      * intros q. rewrite Hd. cbn [take concat]. case_decide as Eq.
        -- subst q. by rewrite lookup_append, decide_True, grown_app.
        -- by rewrite lookup_append, decide_False.
Qed.

Lemma totals_length (received : N) (cs : list (list byte)) :
  length (totals received cs) = length cs.
Proof. revert received. induction cs as [|c cs IH]; intros r; simpl; [done|]. by rewrite IH. Qed.


(** What the loop does depends on the number of chunks the stream takes
    only up to the length of the body. *)
Lemma accepted_spec (w : World) (p : path) (cs : list (list byte)) :
  let j := match disk_fault w p with
           | Some k => (k - 0)%nat
           | None => length cs
           end in
  let n := accepted w p cs in
  (S j <? length cs)%nat = (S n <? length cs)%nat /\
  (j <? length cs)%nat = (n <? length cs)%nat /\
  take j cs = take n cs /\
  forall received, take (S j) (totals received cs) = take (S n) (totals received cs).
Proof.
  unfold accepted. destruct (disk_fault w p) as [k|]; [|done].
  rewrite Nat.sub_0_r. destruct (Nat.le_gt_cases k (length cs)) as [H|H].
  - by rewrite Nat.min_l.
  - rewrite Nat.min_r by lia. repeat split.
    + transitivity false; [|symmetry]; apply Nat.ltb_ge; lia.
    + transitivity false; [|symmetry]; apply Nat.ltb_ge; lia.
    + rewrite !take_ge; [done|lia..].
    + intros received. rewrite !take_ge; [done|rewrite totals_length; lia..].
Qed.

(** [createWriteStream] on a path that is no directory and lies in a
    directory: the file is there afterwards, empty, with the mode it had. *)
Lemma open_write_Done (p : path) (fs : FS) :
  p <> [] -> is_dir fs p = false ->
  exists_at fs p = true \/ is_dir fs (parent p) = true ->
  exists fs',
    open_write p fs = Done fs' /\
    fs' !! p = Some (EFile match fs !! p with
                           | Some (EFile m _) => m
                           | _ => new_file_mode
                           end []) /\
    forall q, q <> p -> fs' !! q = fs !! q.
Proof.
  intros Hp Hd Hpar. unfold open_write, is_dir, exists_at in *.
  destruct p as [|c p]; [done|]. cbn [stat] in *.
  destruct (fs !! (c :: p)) as [[m x|]|] eqn:E; [|done|].
  - eexists. split; [reflexivity|]. rewrite lookup_insert_eq. split; [done|].
    intros q Hq. by apply lookup_insert_ne.
  - destruct Hpar as [|Hpar]; [done|].
    destruct (stat fs (parent (c :: p))) as [[|]|]; try done.
    eexists. split; [reflexivity|]. rewrite lookup_insert_eq. split; [done|].
    intros q Hq. by apply lookup_insert_ne.
Qed.

(** A stream the file system could open: what [stream_to] gives, [n] being
    the number of chunks the stream takes. *)
Lemma stream_to_opened (w : World) (p : path) (name : string) (r : response)
    (s : state) (fs' : FS) :
  open_write p (disk s) = Done fs' ->
  let n := accepted w p (chunks r) in
  exists s1,
    stream_to w p name r s =
      (if (S n <? length (chunks r))%nat then Halt (Uncaught (StreamError p)) s1
       else match aborted r with
            | Some reason =>
                if (n <? length (chunks r))%nat then Halt (Uncaught (StreamError p)) s1
                else Throw (NetworkError reason) s1
            | None => Ok (n <? length (chunks r))%nat s1
            end) /\
    console s1 = console s ++ LogDownloading name
                   :: map (progress_line (totalSize r)) (take (S n) (totals 0 (chunks r))) /\
    forall q, disk s1 !! q =
              if decide (q = p)
              then grown (concat (take n (chunks r))) (fs' !! p)
              else fs' !! q.
Proof.
  intros Hopen n. unfold stream_to. rewrite Hopen.
  destruct (pump_working w p (totalSize r) (chunks r) 0%N 0%nat
              (State fs' (console s ++ [LogDownloading name]))) as (s1 & E & Hc & Hd).
  destruct (accepted_spec w p (chunks r)) as (E1 & E2 & E3 & E4).
  rewrite E1, E2, E3, E4 in *. fold n in E, Hc, Hd |- *. rewrite E.
  exists s1. split; [by destruct (S n <? _)%nat|]. cbn [disk console] in *. split.
  - rewrite Hc, <- app_assoc. reflexivity.
  - exact Hd.
Qed.

(** A stream the file system could not open: the process ends when the body
    has a chunk, or breaks off; with an empty body the loop is left, the
    stream having failed.  The file system stays as it is. *)
Lemma stream_to_unopened (w : World) (p : path) (name : string) (r : response)
    (s : state) (code : errno) :
  open_write p (disk s) = Fail code ->
  stream_to w p name r s =
    let s1 := State (disk s) (console s ++ [LogDownloading name]) in
    match chunks r, aborted r with
    | [], None => Ok true s1
    | _, _ => Halt (Uncaught (StreamError p)) s1
    end.
Proof.
  intros Hopen. unfold stream_to. rewrite Hopen, pump_failed.
  by destruct (chunks r), (aborted r).
Qed.


(** What [stream_to] does to the file system: nothing outside its file. *)
Lemma stream_to_frame (w : World) (p : path) (name : string) (r : response) (s : state)
    (q : path) :
  q <> p -> disk (final_state (stream_to w p name r s)) !! q = disk s !! q.
Proof.
  intros Hq. destruct (open_write p (disk s)) as [fs'|code] eqn:E.
  - destruct (stream_to_opened w p name r s fs' E) as (s1 & -> & _ & Hd).
    assert (disk s1 !! q = disk s !! q) as Hs.
    { rewrite Hd, decide_False by done. unfold open_write in E.
      destruct (stat (disk s) p) as [[m x|]|]; [|done|].
      - injection E as <-. by apply lookup_insert_ne.
      - destruct (is_dir _ _); [|done]. injection E as <-. by apply lookup_insert_ne. }
    destruct (S _ <? _)%nat; [done|]. destruct (aborted r); [|done].
    by destruct (_ <? _)%nat.
  - rewrite (stream_to_unopened w p name r s code E).
    by destruct (chunks r), (aborted r).
Qed.

Lemma stream_to_not_dir (w : World) (p : path) (name : string) (r : response) (s : state) :
  p <> [] -> is_dir (disk s) p = false ->
  is_dir (disk (final_state (stream_to w p name r s))) p = false.
Proof.
  intros Hp Hd. destruct p as [|c p]; [done|]. unfold is_dir in *. cbn [stat] in *.
  destruct (open_write (c :: p) (disk s)) as [fs'|code] eqn:E.
  - destruct (stream_to_opened w _ name r s fs' E) as (s1 & -> & _ & Hl).
    assert (is_Some (fs' !! (c :: p)) /\ fs' !! (c :: p) <> Some EDir) as [[e He] Hne].
    { unfold open_write in E. cbn [stat] in E.
      destruct (disk s !! (c :: p)) as [[m x|]|]; [|done|].
      - injection E as <-. rewrite lookup_insert_eq. by eauto.
      - destruct (is_dir _ _); [|done]. injection E as <-.
        rewrite lookup_insert_eq. by eauto. }
    assert (match disk s1 !! (c :: p) with Some EDir => true | _ => false end = false).
    { rewrite Hl, decide_True, He by done. destruct e; [done|]. by destruct Hne. }
    destruct (S _ <? _)%nat; [done|]. destruct (aborted r); [|done].
    by destruct (_ <? _)%nat.
  - rewrite (stream_to_unopened w _ name r s code E).
    by destruct (chunks r), (aborted r).
Qed.

(** A loop that is left with a working stream has written the whole body
    to the file. *)
Lemma stream_to_finished (w : World) (p : path) (name : string) (r : response)
    (s s1 : state) :
  stream_to w p name r s = Ok false s1 ->
  aborted r = None /\
  (exists m, disk s1 !! p = Some (EFile m (concat (chunks r)))) /\
  forall q, q <> p -> disk s1 !! q = disk s !! q.
Proof.
  intros H.
  pose proof (fun q (Hq : q <> p) => stream_to_frame w p name r s q Hq) as Hfr.
  rewrite H in Hfr. cbn [final_state] in Hfr.
  destruct (open_write p (disk s)) as [fs'|code] eqn:E.
  - destruct (stream_to_opened w p name r s fs' E) as (s2 & E2 & _ & Hd).
    rewrite H in E2.
    destruct (S _ <? _)%nat; [done|].
    destruct (aborted r); [by destruct (_ <? _)%nat|].
    destruct (Nat.ltb_spec (accepted w p (chunks r)) (length (chunks r))) as [|Hn];
      [done|].
    injection E2 as <-. split; [done|]. split; [|done].
    rewrite Hd, decide_True, take_ge by done.
    unfold open_write in E. destruct (stat (disk s) p) as [[m x|]|]; [|done|].
    + injection E as <-. rewrite lookup_insert_eq. simpl. eauto.
    + destruct (is_dir _ _); [|done]. injection E as <-.
      rewrite lookup_insert_eq. simpl. eauto.
  - rewrite (stream_to_unopened w p name r s code E) in H.
    by destruct (chunks r), (aborted r).
Qed.

(** *** The download directory and the catch block *)

Lemma ensure_download (s : state) :
  exists s1,
    bind (existsSync (join ["download"]))
         (fun found => when (negb found)
            (call Mkdir (join ["download"]) (mkdirp (join ["download"])))) s = Ok tt s1 /\
    console s1 = console s /\
    disk s1 !! ["download"] = Some (default EDir (disk s !! ["download"])) /\
    forall q, q <> ["download"] -> disk s1 !! q = disk s !! q.
Proof.
  unfold bind, existsSync, exists_at. simpl.
  destruct (disk s !! ["download"]) as [e|] eqn:E; simpl.
  - exists s. unfold ret. rewrite E. auto.
  - unfold call, mkdirp. simpl. rewrite E.
    eexists. split; [reflexivity|]. simpl. rewrite lookup_insert_eq.
    repeat split. intros q Hq. by apply lookup_insert_ne.
Qed.

(** The catch block of [downloadAndExtract], entered where the archive's
    path holds no directory: it reports, removes the file if there is one,
    and throws the error on. *)
Lemma cleanup_rethrow (url : string) (archive : path) (e : error) (s : state) :
  archive <> [] -> is_dir (disk s) archive = false ->
  exists s',
    (print (ErrFailedToDownload url e) ;;
     (let* found := existsSync archive in
      when found (call Rm archive (rm archive))) ;;
     @throw bool e) s = Throw e s' /\
    console s' = console s ++ [ErrFailedToDownload url e] /\
    forall q, disk s' !! q = if decide (q = archive) then None else disk s !! q.
Proof.
  intros Hp Hd. destruct archive as [|c p]; [done|].
  unfold bind, print, existsSync, exists_at, when, call, rm, throw, ret, is_dir in *.
  cbn [stat disk console] in *.
  destruct (disk s !! (c :: p)) as [[m x|]|] eqn:E; [|done|];
    simpl; rewrite ?E; simpl.
  - eexists. split; [reflexivity|]. split; [reflexivity|]. intros q. simpl.
    case_decide; subst; [apply lookup_delete_eq|by apply lookup_delete_ne].
  - eexists. split; [reflexivity|]. split; [reflexivity|]. intros q. simpl.
    by case_decide; subst.
Qed.

(** *** Extraction *)

Lemma rebase_ext (src dest : path) (fs fs' : FS) :
  (forall r, fs !! (src ++ r) = fs' !! (src ++ r)) -> rebase src dest fs = rebase src dest fs'.
Proof.
  intros H. apply map_eq. intros q. rewrite !lookup_rebase.
  by destruct (under dest q).
Qed.

(** [tar] run on an archive that is there: what is at and below the
    extraction directory becomes what [tar] made of it, the rest stays. *)
Lemma spawn_tar_file (w : World) (archive dir : path) (s : state) (m : Z) (bytes : list byte) :
  stat (disk s) archive = Some (EFile m bytes) ->
  exists s',
    spawn_tar w archive dir s = Ok (tar w bytes (rebase dir [] (disk s))).1 s' /\
    console s' = console s /\
    forall q, disk s' !! q =
              match under dir q with
              | Some r => (tar w bytes (rebase dir [] (disk s))).2 !! r
              | None => disk s !! q
              end.
Proof.
  intros Hst. unfold spawn_tar. rewrite Hst.
  destruct (tar w bytes (rebase dir [] (disk s))) as [code below].
  eexists. split; [reflexivity|]. split; [reflexivity|].
  intros q. cbn [disk fst snd]. rewrite lookup_union, lookup_rebase, lookup_rm_rf.
  destruct (under dir q) as [r|]; simpl.
  - by destruct (below !! r).
  - by destruct (disk s !! q).
Qed.

Lemma under_prefix_None (p a b : path) : under p (a ++ b) = None -> under p a = None.
Proof.
  intros H. apply under_None. intros r ->. rewrite <- app_assoc, under_app in H. done.
Qed.

(** A download whose request is answered with success and whose body
    arrives whole, into a download directory that can take the file: the
    file holds the chunks the stream took; the process ends when the stream
    fails before the last chunk, and otherwise the download gets as far as
    the promise. *)
Lemma downloadAndExtract_settles
    (w : World) (url name : string) (r : response) (extractPath : path) (s : state) :
  url_basename w url = Some name ->
  name <> "" ->
  is_dir (disk s) ["download"; name] = false ->
  exists_at (disk s) ["download"] = false \/ is_dir (disk s) ["download"] = true ->
  fetch w url = inr r ->
  ok r = true ->
  aborted r = None ->
  let archive := ["download"; name] in
  let n := accepted w archive (chunks r) in
  exists s2,
    downloadAndExtract w url extractPath s =
      (if (S n <? length (chunks r))%nat then Halt (Uncaught (StreamError archive)) s2
       else settle w url name archive extractPath (n <? length (chunks r))%nat s2) /\
    console s2 = console s ++ LogFetching url :: LogDownloading name
                   :: map (progress_line (totalSize r))
                        (take (S n) (totals 0 (chunks r))) /\
    disk s2 !! archive =
      Some (EFile match disk s !! archive with
                  | Some (EFile m _) => m
                  | _ => new_file_mode
                  end (concat (take n (chunks r)))) /\
    disk s2 !! ["download"] = Some EDir /\
    forall q, q <> ["download"] -> q <> archive -> disk s2 !! q = disk s !! q.
Proof.
  intros Hname Hne Hdir Hdl Hfetch Hok Hab archive n. subst archive.
  unfold downloadAndExtract. rewrite Hname, (join_download _ Hne).
  destruct (ensure_download s) as (s1 & E1 & Hc1 & Hd1 & Hframe).
  unfold bind at 1. rewrite E1.
  unfold bind at 1. unfold try_catch. unfold bind at 1. unfold print at 1.
  set (s2 := State (disk s1) (console s1 ++ [LogFetching url])).
  rewrite Hfetch, Hok. cbn [negb].
  assert (Hdl1 : disk s1 !! ["download"] = Some EDir).
  { rewrite Hd1. unfold exists_at, is_dir in Hdl. cbn [stat] in Hdl.
    destruct (disk s !! ["download"]) as [[|]|]; destruct Hdl; done. }
  assert (Ha1 : disk s1 !! ["download"; name] = disk s !! ["download"; name]) by (by apply Hframe).
  destruct (open_write_Done ["download"; name] (disk s2)) as (fs' & Hopen & Hfile & Hrest).
  { done. }
  { unfold is_dir, s2 in *. cbn [stat disk] in *. by rewrite Ha1. }
  { right. unfold is_dir, s2. simpl. by rewrite Hdl1. }
  destruct (stream_to_opened w ["download"; name] name r s2 fs' Hopen) as (s3 & -> & Hc3 & Hd3).
  fold n in Hc3, Hd3 |- *.
  rewrite Hab. exists s3. split; [by destruct (S n <? _)%nat|]. split; [|split; [|split]].
  - rewrite Hc3. unfold s2. cbn [console]. rewrite Hc1, <- app_assoc. reflexivity.
  - rewrite Hd3, decide_True, Hfile by done. unfold s2. cbn [disk grown app].
    rewrite Ha1. reflexivity.
  - rewrite Hd3, decide_False, Hrest by done. exact Hdl1.
  - intros q Hq1 Hq2. rewrite Hd3, decide_False, Hrest by done. by apply Hframe.
Qed.

(** The promise of a download whose stream finished, the archive lying
    outside the extraction directory: [tar] runs on the file's bytes, and the
    file is removed if and only if [tar] reports success. *)
Lemma settle_extracts
    (w : World) (url name : string) (archive extractPath : path) (s : state)
    (m : Z) (bytes : list byte) :
  archive <> [] ->
  disk s !! archive = Some (EFile m bytes) ->
  under extractPath archive = None ->
  let out := tar w bytes (rebase extractPath [] (disk s)) in
  exists s1,
    console s1 = console s ++ [LogDownloadComplete; LogExtracting name] /\
    (forall q, disk s1 !! q =
               match under extractPath q with
               | Some r => out.2 !! r
               | None => disk s !! q
               end) /\
    settle w url name archive extractPath false s =
      if out.1 =? 0 then Ok tt (State (delete archive (disk s1)) (console s1))
      else Throw (TarFailed url) s1.
Proof.
  intros Hne Hfile Hout out. unfold settle.
  unfold bind at 1. unfold print at 1. unfold bind at 1. unfold print at 1.
  cbn [disk console].
  set (s0 := State (disk s) ((console s ++ [LogDownloadComplete]) ++ [LogExtracting name])).
  destruct (spawn_tar_file w archive extractPath s0 m bytes) as (s1 & E & Hc & Hd).
  { destruct archive; [done|exact Hfile]. }
  unfold bind. rewrite E. clear E. unfold s0 in *. cbn [disk console] in Hc, Hd |- *.
  fold out in Hd |- *. exists s1. split; [|split].
  - rewrite Hc. by rewrite <- app_assoc.
  - exact Hd.
  - destruct (out.1 =? 0); cbn [negb]; [|reflexivity].
    unfold detached, call, rm.
    assert (stat (disk s1) archive = Some (EFile m bytes)) as ->.
    { destruct archive; [done|]. cbn [stat]. by rewrite Hd, Hout. }
    reflexivity.
Qed.

(** *** Where a computation writes *)

Lemma confined_weaken {A} (P Q : path -> Prop) (m : M A) :
  (forall q, P q -> Q q) -> confined P m -> confined Q m.
Proof. intros HPQ Hm s q Hq. apply Hm. auto. Qed.

Lemma confined_pure {A} (P : path -> Prop) (m : M A) :
  (forall s, disk (final_state (m s)) = disk s) -> confined P m.
Proof. intros H s q _. by rewrite H. Qed.

Lemma confined_ret {A} (P : path -> Prop) (a : A) : confined P (ret a).
Proof. by apply confined_pure. Qed.

Lemma confined_throw {A} (P : path -> Prop) (e : error) : confined P (@throw A e).
Proof. by apply confined_pure. Qed.

Lemma confined_process_exit {A} (P : path -> Prop) (code : Z) :
  confined P (@process_exit A code).
Proof. by apply confined_pure. Qed.

Lemma confined_print (P : path -> Prop) (m : message) : confined P (print m).
Proof. by apply confined_pure. Qed.

Lemma confined_existsSync (P : path -> Prop) (p : path) : confined P (existsSync p).
Proof. by apply confined_pure. Qed.

Lemma confined_bind {A B} (P : path -> Prop) (m : M A) (k : A -> M B) :
  confined P m -> (forall a, confined P (k a)) -> confined P (bind m k).
Proof.
  intros Hm Hk s q Hq. specialize (Hm s q Hq). unfold bind.
  destruct (m s) as [a s1|e s1|h s1]; simpl in *; [|done..].
  by rewrite (Hk a s1 q Hq).
Qed.

Lemma confined_when (P : path -> Prop) (b : bool) (m : M unit) :
  confined P m -> confined P (when b m).
Proof. destruct b; [done|]. intros _. apply confined_ret. Qed.

Lemma confined_for_each {A} (P : path -> Prop) (l : list A) (body : A -> M unit) :
  (forall x, confined P (body x)) -> confined P (for_each l body).
Proof.
  intros Hb. induction l as [|x l IH]; simpl; [apply confined_ret|].
  apply confined_bind; auto.
Qed.

Lemma confined_try_catch {A} (P : path -> Prop) (body : M A) (handler : error -> M A) :
  confined P body -> (forall e, confined P (handler e)) ->
  confined P (try_catch body handler).
Proof.
  intros Hb Hh s q Hq. specialize (Hb s q Hq). unfold try_catch.
  destruct (body s) as [a s1|e s1|h s1]; simpl in *; [done| |done].
  by rewrite (Hh e s1 q Hq).
Qed.

Lemma confined_detached {A} (P : path -> Prop) (m : M A) :
  confined P m -> confined P (detached m).
Proof.
  intros Hm s q Hq. specialize (Hm s q Hq). unfold detached.
  by destruct (m s).
Qed.

Lemma confined_call (P : path -> Prop) (c : syscall) (p : path) (op : FS -> sys FS) :
  (forall fs fs' q, op fs = Done fs' -> ~ P q -> fs' !! q = fs !! q) ->
  confined P (call c p op).
Proof.
  intros Hop s q Hq. unfold call.
  destruct (op (disk s)) as [fs'|code] eqn:E; simpl; [|done]. eauto.
Qed.

Lemma confined_rmSync (P : path -> Prop) (p : path) :
  (forall q, is_Some (under p q) -> P q) -> confined P (rmSync p).
Proof.
  intros HP s q Hq. unfold rmSync. simpl. rewrite lookup_rm_rf.
  destruct (under p q) eqn:U; [|done]. destruct Hq. apply HP. by rewrite U.
Qed.

Lemma confined_rm (P : path -> Prop) (p : path) :
  P p -> confined P (call Rm p (rm p)).
Proof.
  intros HP. apply confined_call. intros fs fs' q H Hq.
  apply rm_Done in H as (_ & -> & _). apply lookup_delete_ne. by intros ->.
Qed.

Lemma confined_chmod (P : path -> Prop) (p : path) (mode : Z) :
  P p -> confined P (call Chmod p (chmod p mode)).
Proof.
  intros HP. apply confined_call. intros fs fs' q H Hq. unfold chmod in H.
  destruct (stat fs p) as [[m x|]|]; [|by injection H as <-|done].
  injection H as <-. apply lookup_insert_ne. by intros ->.
Qed.

Lemma confined_mkdirp (P : path -> Prop) (p : path) :
  (forall q, q <> [] -> is_prefix q p = true -> P q) ->
  confined P (call Mkdir p (mkdirp p)).
Proof.
  intros HP. apply confined_call. intros fs fs' q H Hq.
  rewrite (lookup_mkdirp _ _ _ _ H). unfold made. destruct q as [|c q]; [done|].
  destruct (is_prefix (c :: q) p) eqn:E; [|done]. destruct Hq. by apply HP.
Qed.

Lemma confined_mkdir (P : path -> Prop) (p : path) :
  P p -> confined P (call Mkdir p (mkdir p)).
Proof.
  intros HP. apply confined_call. intros fs fs' q H Hq. unfold mkdir in H.
  destruct (stat fs p); [done|]. destruct (is_dir fs (parent p)); [|done].
  injection H as <-. apply lookup_insert_ne. by intros ->.
Qed.

Lemma confined_copyDir (P : path -> Prop) (src dest : path) :
  (forall q, is_Some (under dest q) -> P q) ->
  (forall q, q <> [] -> is_prefix q (parent dest) = true -> P q) ->
  confined P (copyDir src dest).
Proof.
  intros HP1 HP2. unfold copyDir. apply confined_bind; [apply confined_existsSync|].
  intros found. destruct (negb found); [apply confined_print|].
  apply confined_call. intros fs fs' q H Hq. rewrite (lookup_cpSync _ _ _ _ _ H).
  assert (Hm : made (parent dest) fs q = fs !! q).
  { unfold made. destruct q as [|c q]; [done|].
    destruct (is_prefix (c :: q) (parent dest)) eqn:E; [|done].
    destruct Hq. by apply HP2. }
  destruct (under dest q) eqn:U; [|done]. destruct Hq. apply HP1. by rewrite U.
Qed.

Lemma confined_stream_to (P : path -> Prop) (w : World) (p : path) (name : string)
    (r : response) :
  P p -> confined P (stream_to w p name r).
Proof. intros HP s q Hq. apply stream_to_frame. by intros ->. Qed.

Lemma confined_spawn_tar (P : path -> Prop) (w : World) (archive dir : path) :
  (forall q, is_Some (under dir q) -> P q) -> confined P (spawn_tar w archive dir).
Proof.
  intros HP s q Hq. unfold spawn_tar.
  destruct (stat (disk s) archive) as [[m bytes|]|] eqn:E; [|done..].
  destruct (spawn_tar_file w archive dir s m bytes E) as (s' & Es & _ & Hd).
  unfold spawn_tar in Es. rewrite E in Es.
  destruct (tar w bytes _) as [code below]. injection Es as <-. cbn [final_state].
  specialize (Hd q). cbn [disk] in *. rewrite Hd.
  destruct (under dir q) eqn:U; [|done]. destruct Hq. apply HP. by rewrite U.
Qed.

Lemma under_join_download (name : string) :
  is_Some (under ["download"] (join ["download"; name])).
Proof. unfold join. simpl. destruct (negb (String.eqb name "")); simpl; eauto. Qed.

Lemma confined_downloadAndExtract (w : World) (url : string) (extractPath : path) :
  confined (download_area extractPath) (downloadAndExtract w url extractPath).
Proof.
  unfold downloadAndExtract.
  destruct (url_basename w url) as [name|]; [|apply confined_throw].
  pose proof (under_join_download name) as Harchive.
  assert (Hdl : download_area extractPath (join ["download"; name])) by (by left).
  apply confined_bind.
  { apply confined_bind; [apply confined_existsSync|intros found].
    apply confined_when, confined_mkdirp. intros p Hp Hpre. left.
    unfold is_prefix in Hpre. destruct p as [|c [|d p]]; [done| |]; simpl in *.
    - destruct (String.eqb c "download") eqn:E; [|done].
      apply String.eqb_eq in E as ->. simpl. eauto.
    - destruct (String.eqb c "download"); done. }
  intros _. apply confined_bind.
  - apply confined_try_catch.
    + apply confined_bind; [apply confined_print|intros _].
      destruct (fetch w url) as [reason|r]; [apply confined_throw|].
      destruct (negb (ok r)); [apply confined_throw|by apply confined_stream_to].
    + intros e. apply confined_bind; [apply confined_print|intros _].
      apply confined_bind; [|intros _; apply confined_throw].
      apply confined_bind; [apply confined_existsSync|intros found].
      by apply confined_when, confined_rm.
  - intros promise. unfold settle. destruct promise; [apply confined_throw|].
    apply confined_bind; [apply confined_print|intros _].
    apply confined_bind; [apply confined_print|intros _].
    apply confined_bind; [apply confined_spawn_tar; by right|intros code].
    destruct (negb (code =? 0)); [apply confined_throw|].
    by apply confined_detached, confined_rm.
Qed.

Lemma outside_download_area (extractPath q : path) :
  under ["download"] q = None -> under extractPath q = None ->
  ~ download_area extractPath q.
Proof. unfold download_area. intros -> ->. intros [[? ?]|[? ?]]; done. Qed.

(** *** What stops the process *)

Lemma fails_only_throw {A} (P : error -> Prop) (e : error) :
  P e -> fails_only P (@throw A e).
Proof. by intros He s. Qed.

(** Whatever ends the process inside a download or inside the [try] block of
    [run] is the uncaught ['error'] event of a write stream. *)
Lemma halts_only_never {A} (Q : halt -> Prop) (P : error -> Prop) (m : M A) :
  fails_only P m -> halts_only Q m.
Proof. intros Hm s h s' E. specialize (Hm s). by rewrite E in Hm. Qed.

Lemma halts_only_bind {A B} (Q : halt -> Prop) (m : M A) (k : A -> M B) :
  halts_only Q m -> (forall a, halts_only Q (k a)) -> halts_only Q (bind m k).
Proof.
  intros Hm Hk s h s' E. unfold bind in E.
  destruct (m s) as [a s1|e s1|h1 s1] eqn:Em; [by eapply Hk|done|].
  injection E as <- <-. by eapply Hm.
Qed.

Lemma halts_only_for_each {A} (Q : halt -> Prop) (l : list A) (body : A -> M unit) :
  (forall x, halts_only Q (body x)) -> halts_only Q (for_each l body).
Proof.
  intros Hb. induction l as [|x l IH]; [done|].
  apply halts_only_bind; auto.
Qed.

Lemma halts_only_try_catch {A} (Q : halt -> Prop) (body : M A) (handler : error -> M A) :
  halts_only Q body -> (forall e, halts_only Q (handler e)) ->
  halts_only Q (try_catch body handler).
Proof.
  intros Hb Hh s h s' E. unfold try_catch in E.
  destruct (body s) as [a s1|e s1|h1 s1] eqn:Eb; [done|by eapply Hh|].
  injection E as <- <-. by eapply Hb.
Qed.

Lemma halts_only_stream_to (w : World) (p : path) (name : string) (r : response) :
  halts_only (fun h => h = Uncaught (StreamError p)) (stream_to w p name r).
Proof.
  intros s h s' E. destruct (open_write p (disk s)) as [fs'|code] eqn:Eo.
  - destruct (stream_to_opened w p name r s fs' Eo) as (s1 & E1 & _).
    rewrite E in E1. destruct (S _ <? _)%nat; [congruence|].
    destruct (aborted r); [|done]. destruct (_ <? _)%nat; congruence.
  - rewrite (stream_to_unopened w p name r s code Eo) in E.
    destruct (chunks r), (aborted r); cbn zeta in E; congruence.
Qed.

(** The promise of a download never leaves an unhandled rejection when the
    archive lies outside the extraction directory: the file [tar] has read is
    still there to be removed. *)
Lemma fails_only_settle (w : World) (url name : string) (archive extractPath : path)
    (broken : bool) :
  under extractPath archive = None ->
  fails_only any_error (settle w url name archive extractPath broken).
Proof.
  intros Hout s. destruct broken; [done|].
  destruct (stat (disk s) archive) as [[m bytes|]|] eqn:E.
  - assert (Hne : archive <> []) by (by intros ->).
    assert (Hfile : disk s !! archive = Some (EFile m bytes))
      by (by destruct archive).
    destruct (settle_extracts w url name archive extractPath s m bytes Hne Hfile Hout)
      as (s1 & _ & _ & ->).
    by destruct (_ =? 0).
  - unfold settle, bind, print, spawn_tar. cbn [disk]. by rewrite E.
  - unfold settle, bind, print, spawn_tar. cbn [disk]. by rewrite E.
Qed.

Lemma under_extract_download (name : string) :
  under ["extract"] (join ["download"; name]) = None.
Proof. unfold join. simpl. by destruct (negb (String.eqb name "")). Qed.

Lemma halts_only_downloadAndExtract (w : World) (url : string) :
  halts_only stream_crash (downloadAndExtract w url ["extract"]).
Proof.
  unfold downloadAndExtract.
  destruct (url_basename w url) as [name|]; [|done].
  apply halts_only_bind.
  { apply (halts_only_never _ any_error).
    apply fails_only_bind; [apply fails_only_existsSync|intros found].
    apply fails_only_when, fails_only_call. done. }
  intros _. apply halts_only_bind.
  - apply halts_only_try_catch.
    + apply halts_only_bind; [by apply (halts_only_never _ any_error), fails_only_print|].
      intros _. destruct (fetch w url) as [reason|r]; [done|].
      destruct (negb (ok r)); [done|].
      intros s h s' E. apply halts_only_stream_to in E. by eexists.
    + intros e. apply (halts_only_never _ any_error).
      apply fails_only_bind; [apply fails_only_print|intros _].
      apply fails_only_bind; [|intros _; by apply fails_only_throw].
      apply fails_only_bind; [apply fails_only_existsSync|intros found].
      apply fails_only_when, fails_only_call. done.
  - intros promise. apply (halts_only_never _ any_error).
    apply fails_only_settle, under_extract_download.
Qed.

(** What [run] does inside its [try] block. *)
Lemma halts_only_run_body (w : World) (mainUrl : string) :
  halts_only stream_crash
    (downloadAndExtract w mainUrl (join ["extract"]) ;;
     (if String.eqb (platform w) "linux" then
        print LogDownloadingAndroid ;;
        for_each ANDROID_STDS (fun url => downloadAndExtract w url (join ["extract"]))
      else ret tt) ;;
     setupIndependentRust w (join ["extract"]) ;;
     let binPath := join ["dist"; "bin"; BINARY_NAME] in
     let* found := existsSync binPath in
     if found then
       call Chmod binPath (chmod binPath mode_0755) ;;
       print (LogSuccess (join ["dist"]))
     else ret tt).
Proof.
  apply halts_only_bind; [apply halts_only_downloadAndExtract|intros _].
  apply halts_only_bind.
  { destruct (String.eqb (platform w) "linux"); [|done].
    apply halts_only_bind; [done|intros _].
    apply halts_only_for_each. intros url. apply halts_only_downloadAndExtract. }
  intros _. apply halts_only_bind.
  { eapply halts_only_never, fails_only_setupIndependentRust. }
  intros _. apply (halts_only_never _ any_error).
  apply fails_only_bind; [apply fails_only_existsSync|intros found].
  destruct found; [|apply fails_only_ret].
  apply fails_only_bind; [by apply fails_only_call|intros _]. apply fails_only_print.
Qed.

(** The first statements of [run] on a supported platform cannot fail: the
    staging root is emptied and is there when the rest runs. *)
Lemma reset_staging (s : state) :
  exists s2,
    (forall A (rest : M A),
       ((let* found := existsSync (join ["extract"]) in
         when found (rmSync (join ["extract"]))) ;;
        call Mkdir (join ["extract"]) (mkdirp (join ["extract"])) ;;
        rest) s = rest s2) /\
    console s2 = console s /\
    forall q, disk s2 !! q =
              match under ["extract"] q with
              | Some [] => Some EDir
              | Some _ => if exists_at (disk s) ["extract"] then None else disk s !! q
              | None => disk s !! q
              end.
Proof.
  cbn [join List.filter negb String.eqb Ascii.eqb Bool.eqb].
  unfold bind, existsSync, when, rmSync, ret, call, mkdirp.
  destruct (exists_at (disk s) ["extract"]) eqn:E; cbn [disk console mkdirp_from app].
  - rewrite lookup_rm_rf, (under_refl ["extract"]).
    eexists. split; [reflexivity|]. split; [reflexivity|]. intros q. cbn [disk].
    destruct (under ["extract"] q) as [[|c r]|] eqn:U.
    + apply under_Some in U as ->. apply lookup_insert_eq.
    + rewrite lookup_insert_ne, lookup_rm_rf, U; [done|].
      intros <-. by rewrite under_refl in U.
    + rewrite lookup_insert_ne, lookup_rm_rf, U; [done|].
      intros <-. by rewrite under_refl in U.
  - unfold exists_at in E. cbn [stat] in E.
    destruct (disk s !! ["extract"]) eqn:E2; [done|].
    eexists. split; [reflexivity|]. split; [reflexivity|]. intros q. cbn [disk].
    destruct (under ["extract"] q) as [[|c r]|] eqn:U.
    + apply under_Some in U as ->. apply lookup_insert_eq.
    + rewrite lookup_insert_ne; [done|]. intros <-. by rewrite under_refl in U.
    + rewrite lookup_insert_ne; [done|]. intros <-. by rewrite under_refl in U.
Qed.

Lemma setupIndependentRust_last_line (w : World) (unpackedPath : path) (s s' : state) :
  setupIndependentRust w unpackedPath s = Ok tt s' ->
  last (console s') = Some LogAssembled.
Proof.
  unfold setupIndependentRust. intros H.
  repeat (apply bind_Ok in H as (? & ? & _ & H)).
  injection H as <-. cbn [console]. apply last_snoc.
Qed.

(** *** Where the assembler writes *)

Lemma is_prefix_Some (p q : path) : is_prefix p q = true <-> exists r, q = p ++ r.
Proof.
  unfold is_prefix. split.
  - destruct (under p q) as [r|] eqn:U; [|done]. intros _. exists r. by apply under_Some.
  - intros [r ->]. by rewrite under_app.
Qed.

Lemma area_above (u t q : path) :
  q <> [] -> is_prefix q ((u ++ ["dist"]) ++ t) = true -> assembly_area u q.
Proof.
  intros Hq Hp. apply is_prefix_Some in Hp as [r Hr].
  rewrite <- app_assoc in Hr. apply app_eq_app in Hr as [l Hr].
  destruct Hr as [[Hu Hl]|[Hu Hl]]; subst.
  - right. right. split; [done|]. apply is_prefix_Some. eauto.
  - destruct l as [|c l].
    + right. right. split; [done|]. apply is_prefix_Some. exists []. by rewrite !app_nil_r.
    + simpl in Hl. injection Hl as <- _. left.
      replace (u ++ "dist" :: l) with ((u ++ ["dist"]) ++ l) by (by rewrite <- app_assoc).
      rewrite under_app. eauto.
Qed.

Lemma area_below (u t q : path) :
  is_Some (under ((u ++ ["dist"]) ++ t) q) -> assembly_area u q.
Proof.
  intros [r Hr]. apply under_Some in Hr as ->. left.
  rewrite <- app_assoc, under_app. eauto.
Qed.

Lemma parent_snoc (p : path) (c : string) : parent (p ++ [c]) = p.
Proof. apply removelast_last. Qed.

Lemma confined_copy_into_work (w : World) (u src t : path) (c : string) :
  confined (assembly_area u) (copyDir src ((u ++ ["dist"]) ++ t ++ [c])).
Proof.
  apply confined_copyDir.
  - intros q Hq. by apply (area_below u (t ++ [c])).
  - intros q Hq Hp. rewrite app_assoc, parent_snoc in Hp. by apply (area_above u t).
Qed.

Lemma confined_setupIndependentRust (w : World) (u : path) :
  confined (assembly_area u) (setupIndependentRust w u).
Proof.
  unfold setupIndependentRust.
  cbn [join List.filter negb String.eqb Ascii.eqb Bool.eqb].
  apply confined_bind; [apply confined_print|intros _].
  apply confined_bind.
  { apply confined_bind; [apply confined_existsSync|intros found].
    apply confined_when, confined_rmSync. intros q Hq.
    apply (area_below u []). by rewrite app_nil_r. }
  intros _. apply confined_bind.
  { apply confined_mkdirp. intros q Hq Hp. by apply (area_above u ["bin"]). }
  intros _. apply confined_bind.
  { apply confined_mkdirp. intros q Hq Hp. by apply (area_above u ["lib"]). }
  intros _. apply confined_bind; [apply confined_print|intros _].
  apply confined_bind; [apply confined_print|intros _].
  apply confined_bind; [apply (confined_copy_into_work w u _ [] "bin")|intros _].
  apply confined_bind; [apply (confined_copy_into_work w u _ [] "lib")|intros _].
  apply confined_bind; [apply (confined_copy_into_work w u _ [] "bin")|intros _].
  apply confined_bind.
  { rewrite <- (app_assoc (u ++ ["dist"])).
    apply (confined_copy_into_work w u _ ["lib"] "rustlib"). }
  intros _. apply confined_bind.
  { destruct (String.eqb (platform w) "linux"); [|apply confined_ret].
    apply confined_bind; [apply confined_print|intros _].
    apply confined_for_each. intros target.
    cbn [join List.filter negb String.eqb Ascii.eqb Bool.eqb].
    destruct (negb (String.eqb target "")).
    - rewrite <- (app_assoc (u ++ ["dist"])).
      apply (confined_copy_into_work w u _ ["lib"; "rustlib"] target).
    - rewrite <- (app_assoc (u ++ ["dist"])).
      apply (confined_copy_into_work w u _ ["lib"] "rustlib"). }
  intros _. apply confined_bind.
  { apply confined_bind; [apply confined_existsSync|intros found].
    apply confined_when, confined_rmSync. intros q Hq. right. by left. }
  intros _. apply confined_bind.
  { apply confined_mkdir. right. left. by rewrite under_refl. }
  intros _. apply confined_bind; [|intros _; apply confined_print].
  apply confined_copyDir.
  - intros q Hq. right. by left.
  - intros q Hq Hp. apply is_prefix_Some in Hp as [r Hr]. simpl in Hr.
    by destruct q.
Qed.

(** *** The first revision *)

(** The catch block of [download], entered where the archive's path holds
    no directory: it reports, removes the file if there is one, and exits. *)
Lemma legacy_cleanup (e : error) (s : state) :
  is_dir (disk s) ["temp-archive.tar.xz"] = false ->
  exists s',
    (print (ErrInstallationFailed e) ;;
     (let* found := existsSync (join ["temp-archive.tar.xz"]) in
      when found (call Rm (join ["temp-archive.tar.xz"]) (rm (join ["temp-archive.tar.xz"])))) ;;
     @process_exit unit 1) s = Halt (ProcessExit 1) s' /\
    console s' = console s ++ [ErrInstallationFailed e] /\
    forall q, disk s' !! q = if decide (q = ["temp-archive.tar.xz"]) then None else disk s !! q.
Proof.
  intros Hd.
  cbn [join List.filter negb String.eqb Ascii.eqb Bool.eqb].
  unfold bind, print, existsSync, exists_at, when, call, rm, process_exit, ret, is_dir in *.
  cbn [stat disk console] in *.
  destruct (disk s !! ["temp-archive.tar.xz"]) as [[m x|]|] eqn:E; [|done|];
    simpl; rewrite ?E; simpl.
  - eexists. split; [reflexivity|]. split; [reflexivity|]. intros q. simpl.
    case_decide; subst; [apply lookup_delete_eq|by apply lookup_delete_ne].
  - eexists. split; [reflexivity|]. split; [reflexivity|]. intros q. simpl.
    by case_decide; subst.
Qed.

Ltac exits_clean Hstop e s0 :=
  unfold throw at 1;
  let s' := fresh "s'" in
  let E := fresh "E" in
  let H := fresh "H" in
  destruct (Hstop e s0) as (s' & E & H);
  [ | rewrite E; exists s', false; split; [reflexivity|exact H] ].

Lemma legacy_download_outcome (w : World) (url : string) (s : state) :
  truthy (PLATFORMS !! platformKey w) = Some url ->
  is_dir (disk s) ["temp-archive.tar.xz"] = false ->
  (forall bytes fs, (tar w bytes fs).2 !! ["temp-archive.tar.xz"] =
                    fs !! ["temp-archive.tar.xz"]) ->
  exists s' (returns : bool),
    Legacy.download w s = (if returns then Ok tt s' else Halt (ProcessExit 1) s') /\
    stat (disk s') ["temp-archive.tar.xz"] = None.
Proof.
  intros Hurl Hdir Htar.
  unfold Legacy.download, BINARY_NAME. rewrite Hurl. unfold try_catch.
  cbn [join List.filter negb String.eqb Ascii.eqb Bool.eqb].
  unfold bind at 1. unfold print at 1.
  set (s1 := State (disk s) (console s ++ [LogFetching url])).
  assert (Hstop : forall e s2,
            is_dir (disk s2) ["temp-archive.tar.xz"] = false ->
            exists s',
              ((print (ErrInstallationFailed e) ;;
                (let* found := existsSync ["temp-archive.tar.xz"] in
                 when found (call Rm ["temp-archive.tar.xz"] (rm ["temp-archive.tar.xz"]))) ;;
                @process_exit unit 1) s2 = Halt (ProcessExit 1) s') /\
              stat (disk s') ["temp-archive.tar.xz"] = None).
  { intros e s2 Hd2. destruct (legacy_cleanup e s2 Hd2) as (s' & E & _ & Hd).
    cbn [join List.filter negb String.eqb Ascii.eqb Bool.eqb] in E.
    exists s'. split; [exact E|]. cbn [stat]. by rewrite Hd, decide_True. }
  destruct (fetch w url) as [reason|r].
  { exits_clean Hstop (NetworkError reason) s1. exact Hdir. }
  destruct (negb (ok r)).
  { exits_clean Hstop (HttpError (status r) (statusText r)) s1. exact Hdir. }
  destruct (aborted r) as [reason|].
  { exits_clean Hstop (NetworkError reason) s1. exact Hdir. }
  destruct (length (concat (chunks r)) =? 0)%nat.
  { exits_clean Hstop EmptyDownload s1. exact Hdir. }
  unfold bind at 1. unfold print at 1. unfold bind at 1.
  set (s2 := State (disk s1) (console s1 ++ [LogSaving (N.of_nat (length (concat (chunks r))))])).
  destruct (open_write_Done ["temp-archive.tar.xz"] (disk s2))
    as (fs' & Hopen & Hfile & _); [done|exact Hdir|by right|].
  unfold call at 1, write_file. rewrite Hopen.
  unfold bind at 1. unfold print at 1. cbn [disk console].
  set (s3 := State _ _).
  assert (Hfile3 : exists m, disk s3 !! ["temp-archive.tar.xz"] =
                             Some (EFile m (concat (chunks r)))).
  { unfold s3. cbn [disk]. rewrite lookup_append, decide_True, Hfile by done.
    simpl. eauto. }
  destruct Hfile3 as (m & Hfile3).
  destruct (spawn_tar_file w ["temp-archive.tar.xz"] [] s3 m _ Hfile3) as (s4 & E4 & _ & Hd4).
  unfold bind at 1. rewrite E4.
  assert (Hfile4 : disk s4 !! ["temp-archive.tar.xz"] = Some (EFile m (concat (chunks r)))).
  { rewrite Hd4. cbn [under]. rewrite Htar, lookup_rebase. cbn [under app]. exact Hfile3. }
  destruct (negb (_ =? 0)).
  { exits_clean Hstop TarFailedPlain s4.
    unfold is_dir. cbn [stat]. by rewrite Hfile4. }
  unfold bind at 1. unfold call at 1, rm. cbn [stat]. rewrite Hfile4.
  unfold bind, existsSync. cbn [disk console].
  destruct (exists_at _ _) eqn:Ebin.
  - unfold call, chmod, print, exists_at in *. cbn [stat disk] in *.
    rewrite lookup_delete_ne in * by done.
    destruct (disk s4 !! ["bin"; "rustc"]) as [[m0 c0|]|]; [| |done].
    + eexists. exists true. split; [reflexivity|]. cbn [disk stat].
      rewrite lookup_insert_ne by done. apply lookup_delete_eq.
    + eexists. exists true. split; [reflexivity|]. cbn [disk stat]. apply lookup_delete_eq.
  - eexists. exists true. split; [reflexivity|]. cbn [disk stat]. apply lookup_delete_eq.
Qed.

(** *** Progress *)


(** *** The intermediate revision of the assembler *)

Lemma clear_keeps_outside (p q : path) (s s' : state) :
  under p q = None ->
  bind (existsSync p) (fun found => when found (rmSync p)) s = Ok tt s' ->
  disk s' !! q = disk s !! q.
Proof.
  intros U H. apply clear_Ok in H. rewrite H.
  destruct (exists_at (disk s) p); [|done]. by rewrite lookup_rm_rf, U.
Qed.

(** *** The whole run *)

Lemma confined_run (w : World) : confined run_area (run w).
Proof.
  unfold run. destruct (truthy (PLATFORMS !! platformKey w)) as [mainUrl|].
  - cbn [join List.filter negb String.eqb Ascii.eqb Bool.eqb].
    assert (Hd : forall url, confined run_area (downloadAndExtract w url ["extract"])).
    { intros url. eapply confined_weaken; [|apply confined_downloadAndExtract].
      intros q [H|H]; [by left|by right; left]. }
    apply confined_bind.
    { apply confined_bind; [apply confined_existsSync|intros found].
      apply confined_when, confined_rmSync. intros q Hq. right. by left. }
    intros _. apply confined_bind.
    { apply confined_mkdirp. intros q Hq Hp. right. left.
      apply is_prefix_Some in Hp as [r Hr].
      destruct q as [|c [|d q]]; [done| |done]. injection Hr as <-.
      by rewrite under_refl. }
    intros _. apply confined_try_catch.
    + apply confined_bind; [apply Hd|intros _].
      apply confined_bind.
      { destruct (String.eqb (platform w) "linux"); [|apply confined_ret].
        apply confined_bind; [apply confined_print|intros _].
        apply confined_for_each. intros url. apply Hd. }
      intros _. apply confined_bind.
      { eapply confined_weaken; [|apply confined_setupIndependentRust].
        intros q [H|[H|[Hq Hp]]].
        - right. left. destruct H as [r Hr]. apply under_Some in Hr as ->.
          rewrite <- app_assoc, under_app. eauto.
        - right. by right.
        - right. left. apply is_prefix_Some in Hp as [r Hr].
          destruct q as [|c [|d q]]; [done| |done]. injection Hr as <-.
          by rewrite under_refl. }
      intros _. apply confined_bind; [apply confined_existsSync|intros found].
      destruct found; [|apply confined_ret].
      apply confined_bind; [|intros _; apply confined_print].
      apply confined_chmod. right. right. unfold BINARY_NAME. simpl. eauto.
    + intros e. apply confined_bind; [apply confined_print|intros _].
      apply confined_process_exit.
  - apply confined_bind; [apply confined_print|intros _]. apply confined_process_exit.
Qed.

(** *** A download that returns *)

(** A download returns only when the server answered with success, the body
    arrived whole and was written to the archive, and [tar], run on those
    bytes and on what was at and below the staging root, reported success;
    the staging root then holds what [tar] left there. *)
Lemma downloadAndExtract_Ok (w : World) (url : string) (s s' : state) :
  downloadAndExtract w url ["extract"] s = Ok tt s' ->
  exists r below,
    fetch w url = inr r /\ ok r = true /\ aborted r = None /\
    (forall p, below !! p = disk s !! ("extract" :: p)) /\
    (tar w (concat (chunks r)) below).1 = 0 /\
    forall p, disk s' !! ("extract" :: p) = (tar w (concat (chunks r)) below).2 !! p.
Proof.
  unfold downloadAndExtract. intros H.
  destruct (url_basename w url) as [name|]; [|done].
  pose proof (under_extract_download name) as Hout.
  assert (Hstart : exists d, join ["download"; name] = "download" :: d).
  { unfold join. simpl. destruct (negb (String.eqb name "")); simpl; eauto. }
  destruct Hstart as [d Ed]. rewrite Ed in *. clear Ed.
  apply bind_Ok in H as ([] & s1 & H1 & H).
  assert (F1 : forall p, disk s1 !! ("extract" :: p) = disk s !! ("extract" :: p)).
  { intros p. destruct (ensure_download s) as (s1' & E1 & _ & _ & Hframe).
    rewrite E1 in H1. injection H1 as <-. by apply Hframe. }
  clear H1.
  apply bind_Ok in H as (promise & s2 & H2 & H).
  unfold settle in H. destruct promise; [done|].
  apply try_catch_Ok in H2 as [H2|(e & s3 & _ & H2)].
  2: { apply bind_Ok in H2 as (_ & s4 & _ & H2).
       by apply bind_Ok in H2 as (_ & s5 & _ & H2). }
  apply bind_Ok in H2 as ([] & s3 & H3 & H2).
  pose proof (print_Ok _ _ _ H3) as F3. clear H3.
  destruct (fetch w url) as [reason|r]; [done|].
  destruct (ok r) eqn:Hok; [|done]. cbn [negb] in H2.
  apply stream_to_finished in H2 as (Hab & (m & Hfile) & F2).
  apply bind_Ok in H as ([] & s4 & H4 & H).
  pose proof (print_Ok _ _ _ H4) as F4. clear H4.
  apply bind_Ok in H as ([] & s5 & H5 & H).
  pose proof (print_Ok _ _ _ H5) as F5. clear H5.
  apply bind_Ok in H as (code & t6 & H6 & H).
  destruct (spawn_tar_file w ("download" :: d) ["extract"] s5 m (concat (chunks r)))
    as (s6 & E6 & _ & F6).
  { cbn [stat]. by rewrite F5, F4. }
  rewrite E6 in H6. injection H6 as <- <-.
  destruct (Z.eqb_spec (tar w (concat (chunks r)) (rebase ["extract"] [] (disk s5))).1 0)
    as [Hcode|]; [|done]. cbn [negb] in H.
  unfold detached in H.
  destruct (call Rm _ _ s6) as [[] s7| |] eqn:Hrm; try done. injection H as <-.
  apply call_Ok in Hrm as (fs' & Hrm & ->). apply rm_Done in Hrm as (_ & -> & _).
  exists r, (rebase ["extract"] [] (disk s5)).
  split; [reflexivity|]. split; [exact Hok|]. split; [exact Hab|].
  split; [|split; [exact Hcode|]].
  - intros p. rewrite lookup_rebase. cbn [under app].
    rewrite F5, F4, F2, F3 by done. apply F1.
  - intros p. cbn [disk]. rewrite lookup_delete_ne by done.
    rewrite F6. cbn [under]. by rewrite String.eqb_refl.
Qed.

Lemma downloadAndExtract_delivered (w : World) (url : string) (s s' : state) :
  downloadAndExtract w url ["extract"] s = Ok tt s' -> delivered w url.
Proof.
  intros H. apply downloadAndExtract_Ok in H as (r & below & ? & ? & ? & _ & ? & _).
  exists r. eauto 10.
Qed.

(** With a [tar] that removes nothing, what is staged stays staged through a
    download that returns. *)
Lemma downloadAndExtract_keeps_staged (w : World) (url : string) (s s' : state) (p : path) :
  tar_keeps w ->
  downloadAndExtract w url ["extract"] s = Ok tt s' ->
  staged s p -> staged s' p.
Proof.
  intros Hkeep H Hp. apply downloadAndExtract_Ok in H as (r & below & _ & _ & _ & Hb & _ & Hd).
  unfold staged in *. rewrite Hd. apply Hkeep. by rewrite Hb.
Qed.

(** A download that returns has staged the standard library its archive
    holds. *)
Lemma downloadAndExtract_stages (w : World) (url : string) (r : response) (s s' : state)
    (target : string) :
  fetch w url = inr r ->
  holds_std w (concat (chunks r)) target ->
  downloadAndExtract w url ["extract"] s = Ok tt s' ->
  staged s' (std_rustlib target ++ [target]).
Proof.
  intros Hfetch Hstd H.
  apply downloadAndExtract_Ok in H as (r' & below & Hf & _ & _ & _ & _ & Hd).
  rewrite Hfetch in Hf. injection Hf as <-.
  unfold staged. rewrite Hd. apply Hstd.
Qed.

(** *** Loops that return *)

Lemma for_each_Ok_Forall {A} (P : A -> Prop) (l : list A) (body : A -> M unit)
    (s s' : state) :
  (forall x a b, body x a = Ok tt b -> P x) ->
  for_each l body s = Ok tt s' -> Forall P l.
Proof.
  intros Hb. revert s. induction l as [|x l IH]; intros s H; [constructor|].
  cbn [for_each] in H. apply bind_Ok in H as ([] & s1 & H1 & H).
  constructor; eauto.
Qed.

(** What one round of a loop establishes and every round keeps holds when
    the loop returns. *)
Lemma for_each_Ok_lookup {A} (J : state -> Prop) (l : list A) (body : A -> M unit)
    (i : nat) (x : A) (s s' : state) :
  l !! i = Some x ->
  (forall a b, body x a = Ok tt b -> J b) ->
  (forall y a b, body y a = Ok tt b -> J a -> J b) ->
  for_each l body s = Ok tt s' -> J s'.
Proof.
  intros Hi Hx Hkeep. revert i s Hi.
  assert (Hrest : forall l s, J s -> for_each l body s = Ok tt s' -> J s').
  { clear l. intros l. induction l as [|y l IH]; intros s HJ H.
    - by injection H as <-.
    - cbn [for_each] in H. apply bind_Ok in H as ([] & s1 & H1 & H). eauto. }
  induction l as [|y l IH]; intros i s Hi H; [done|].
  cbn [for_each] in H. apply bind_Ok in H as ([] & s1 & H1 & H).
  destruct i as [|i]; [|by eauto].
  injection Hi as ->. eauto.
Qed.

(** *** The assembler on a staging root of any shape *)

Lemma copied_brings (src dest r : path) (fs : FS) :
  src <> [] ->
  is_Some (fs !! src) -> is_Some (fs !! (src ++ r)) ->
  is_Some (copied src dest fs (dest ++ r)).
Proof.
  intros Hne [e He] [e' He']. unfold copied, exists_at.
  destruct src as [|c src]; [done|]. cbn [stat]. rewrite He.
  by rewrite under_app, He'.
Qed.

Ltac kept :=
  repeat match goal with
         | P : is_Some (disk ?s !! ?p) |- is_Some (disk ?s !! ?p) => exact P
         | L : forall q, disk ?si !! q =
                         copied ["extract"; ?c; "lib"; "rustlib"; ?t]
                                ["extract"; "dist"; "lib"; "rustlib"; ?t] (disk ?sj) q
           |- is_Some (disk ?si !! ["extract"; "dist"; "lib"; "rustlib"; ?t]) =>
             rewrite L;
             apply (copied_brings ["extract"; c; "lib"; "rustlib"; t]
                      ["extract"; "dist"; "lib"; "rustlib"; t] []);
             [discriminate| |rewrite app_nil_r]
         | K : forall q, is_Some (disk ?sj !! q) -> is_Some (disk ?si !! q)
           |- is_Some (disk ?si !! _) => apply K
         | L : forall q, disk ?si !! q = made _ (disk ?sj) q
           |- is_Some (disk ?si !! _) =>
             rewrite L; first [ rewrite made_above by decide_path; by eauto
                              | apply made_keeps ]
         | L : forall q, disk ?si !! q = mkdired _ (disk ?sj) q
           |- is_Some (disk ?si !! _) => rewrite L; apply mkdired_keeps
         | L : forall q, disk ?si !! q = disk ?sj !! q
           |- is_Some (disk ?si !! _) => rewrite L
         | H : bind (existsSync ?p) _ ?sj = Ok _ ?si
           |- is_Some (disk ?si !! ?q) =>
             rewrite (clear_keeps_outside p q sj si ltac:(decide_path) H)
         end.

(** On Linux the assembler installs every Android standard library that is
    staged, whatever else the staging root holds. *)
Lemma android_installed (w : World) (s s' : state) (target : string) :
  String.eqb (platform w) "linux" = true ->
  target ∈ androidTargets ->
  setupIndependentRust w ["extract"] s = Ok tt s' ->
  staged s (std_rustlib target ++ [target]) ->
  installed s' ["lib"; "rustlib"; target].
Proof.
  intros Hlinux Hin H Hst. unfold staged, installed, std_rustlib in *.
  unfold setupIndependentRust in H. rewrite Hlinux in H.
  unfold androidTargets in Hin.
  prepare H. invert_binds H.
  match goal with
  | H : bind (print LogCopyingAndroid) _ _ = _ |- _ => invert_binds H
  end.
  digest.
  repeat (apply elem_of_cons in Hin as [->|Hin];
          [ cbv [String.append] in Hst; cbn [app] in Hst;
            match goal with
            | L : forall q, disk ?sf !! q = disk ?sp !! q,
              Lc : forall q, disk ?sp !! q = copied ["extract"; "dist"] ["dist"] (disk ?sb) q
              |- is_Some (disk ?sf !! ("dist" :: ?r)) =>
                rewrite L, Lc;
                apply (copied_brings ["extract"; "dist"] ["dist"] r); [discriminate|..]
            end; cbn [app]; kept |]).
  by apply elem_of_nil in Hin.
Qed.

(** *** The whole run, when it returns *)

(** The steps of a run that returns. *)
Lemma run_Ok (w : World) (mainUrl : string) (s s' : state) :
  truthy (PLATFORMS !! platformKey w) = Some mainUrl ->
  run w s = Ok tt s' ->
  exists s2 s3 s4 s5,
    downloadAndExtract w mainUrl ["extract"] s2 = Ok tt s3 /\
    (if String.eqb (platform w) "linux"
     then exists s3',
            for_each ANDROID_STDS (fun url => downloadAndExtract w url ["extract"]) s3' =
              Ok tt s4
     else s4 = s3) /\
    setupIndependentRust w ["extract"] s4 = Ok tt s5 /\
    forall q, q <> ["dist"; "bin"; "rustc"] -> disk s' !! q = disk s5 !! q.
Proof.
  intros Hurl H. unfold run in H. rewrite Hurl in H.
  destruct (reset_staging s) as (s2 & E & _). rewrite E in H. clear E.
  apply try_catch_Ok in H as [H|(e & s3 & _ & H)]; [|done].
  cbn [join List.filter negb String.eqb Ascii.eqb Bool.eqb] in H.
  apply bind_Ok in H as ([] & s3 & Hmain & H).
  apply bind_Ok in H as ([] & s4 & Handroid & H).
  apply bind_Ok in H as ([] & s5 & Hsetup & H).
  exists s2, s3, s4, s5. split; [exact Hmain|]. split; [|split; [exact Hsetup|]].
  - destruct (String.eqb (platform w) "linux").
    + apply bind_Ok in Handroid as ([] & s3' & _ & Handroid). eauto.
    + by injection Handroid as <-.
  - intros q Hq. unfold bind, existsSync, BINARY_NAME in H.
    cbn [join List.filter negb String.eqb Ascii.eqb Bool.eqb] in H.
    destruct (exists_at (disk s5) ["dist"; "bin"; "rustc"]).
    + unfold call, chmod, print in H.
      destruct (stat (disk s5) ["dist"; "bin"; "rustc"]) as [[m c|]|]; [| |done].
      * injection H as <-. cbn [disk]. by apply lookup_insert_ne.
      * by injection H as <-.
    + by injection H as <-.
Qed.

(** A run that returns has fetched and unpacked the platform's archive and,
    on Linux, each of the Android archives. *)
Lemma run_delivered (w : World) (mainUrl : string) (s s' : state) :
  truthy (PLATFORMS !! platformKey w) = Some mainUrl ->
  run w s = Ok tt s' ->
  Forall (delivered w)
    (mainUrl :: if String.eqb (platform w) "linux" then ANDROID_STDS else []).
Proof.
  intros Hurl H.
  destruct (run_Ok w mainUrl s s' Hurl H) as (s2 & s3 & s4 & s5 & Hmain & Handroid & _).
  constructor; [by eapply downloadAndExtract_delivered|].
  destruct (String.eqb (platform w) "linux"); [|constructor].
  destruct Handroid as (s3' & Handroid).
  eapply for_each_Ok_Forall; [|exact Handroid].
  intros url a b. apply downloadAndExtract_delivered.
Qed.

(** A Linux run that returns has installed the standard library of every
    Android archive that holds one, [tar] removing nothing. *)
Lemma run_installs_android (w : World) (mainUrl : string) (s s' : state)
    (i : nat) (url target : string) (r : response) :
  truthy (PLATFORMS !! platformKey w) = Some mainUrl ->
  String.eqb (platform w) "linux" = true ->
  tar_keeps w ->
  run w s = Ok tt s' ->
  ANDROID_STDS !! i = Some url ->
  androidTargets !! i = Some target ->
  fetch w url = inr r ->
  holds_std w (concat (chunks r)) target ->
  installed s' ["lib"; "rustlib"; target].
Proof.
  intros Hurl Hlinux Hkeep H Hi Ht Hfetch Hstd.
  destruct (run_Ok w mainUrl s s' Hurl H) as (s2 & s3 & s4 & s5 & _ & Handroid & Hsetup & Hd).
  rewrite Hlinux in Handroid. destruct Handroid as (s3' & Handroid).
  unfold installed. rewrite Hd by done.
  apply (android_installed w s4 s5 target Hlinux); [|exact Hsetup|].
  - by eapply list_elem_of_lookup_2.
  - eapply (for_each_Ok_lookup (fun b => staged b (std_rustlib target ++ [target])));
      [exact Hi| | |exact Handroid].
    + intros a b. by apply downloadAndExtract_stages with r.
    + intros y a b. by apply downloadAndExtract_keeps_staged.
Qed.

(** *** The same machine on another network *)

Lemma bind_ext {A B} (m m' : M A) (k k' : A -> M B) (s : state) :
  m s = m' s -> (forall a s1, k a s1 = k' a s1) -> bind m k s = bind m' k' s.
Proof. intros Hm Hk. unfold bind. rewrite Hm. by destruct (m' s). Qed.

Lemma try_catch_ext {A} (body body' : M A) (handler : error -> M A) (s : state) :
  body s = body' s -> try_catch body handler s = try_catch body' handler s.
Proof. intros Hb. unfold try_catch. by rewrite Hb. Qed.

Lemma for_each_ext {A} (l : list A) (f g : A -> M unit) :
  (forall x, x ∈ l -> forall s, f x s = g x s) ->
  forall s, for_each l f s = for_each l g s.
Proof.
  induction l as [|x l IH]; intros H s; [done|]. cbn [for_each].
  apply bind_ext; [apply H; by left|]. intros _ s1. apply IH.
  intros y Hy. apply H. by right.
Qed.

Lemma pump_ext (w w' : World) (p : path) (total : N) (cs : list (list byte))
    (received : N) (flushed : nat) (broken : bool) (s : state) :
  disk_fault w' = disk_fault w ->
  pump w' p total cs received flushed broken s = pump w p total cs received flushed broken s.
Proof.
  intros H. revert received flushed broken s.
  induction cs as [|c cs IH]; intros received flushed broken s; [done|].
  cbn [pump]. rewrite H. destruct broken; [done|]. apply IH.
Qed.

Lemma stream_to_ext (w w' : World) (p : path) (name : string) (r : response) (s : state) :
  disk_fault w' = disk_fault w ->
  stream_to w' p name r s = stream_to w p name r s.
Proof.
  intros H. unfold stream_to.
  destruct (open_write p (disk s)); by rewrite (pump_ext w w').
Qed.

Lemma settle_ext (w w' : World) (url name : string) (archive extractPath : path)
    (broken : bool) (s : state) :
  tar w' = tar w ->
  settle w' url name archive extractPath broken s =
  settle w url name archive extractPath broken s.
Proof.
  intros H. unfold settle. destruct broken; [done|].
  unfold bind, print, spawn_tar. by rewrite H.
Qed.

Lemma downloadAndExtract_ext (w w' : World) (url : string) (extractPath : path)
    (s : state) :
  same_machine w w' ->
  fetch w' url = fetch w url ->
  downloadAndExtract w' url extractPath s = downloadAndExtract w url extractPath s.
Proof.
  intros (_ & _ & Hname & Hfault & Htar) Hfetch. unfold downloadAndExtract.
  rewrite Hname, Hfetch. destruct (url_basename w url) as [name|]; [|done].
  apply bind_ext; [done|]. intros _ s1. apply bind_ext.
  - apply try_catch_ext. apply bind_ext; [done|]. intros _ s2.
    destruct (fetch w url) as [reason|r]; [done|].
    destruct (negb (ok r)); [done|]. by apply stream_to_ext.
  - intros promise s2. by apply settle_ext.
Qed.

Lemma setupIndependentRust_ext (w w' : World) (unpackedPath : path) :
  platform w' = platform w -> arch w' = arch w ->
  setupIndependentRust w' unpackedPath = setupIndependentRust w unpackedPath.
Proof.
  intros Hp Ha. unfold setupIndependentRust, platformKey. by rewrite Hp, Ha.
Qed.

(** What [run] does depends on the network only through the answers for the
    platform's archive and, on Linux, for the Android archives. *)
Lemma run_ext (w w' : World) (mainUrl : string) (s : state) :
  truthy (PLATFORMS !! platformKey w) = Some mainUrl ->
  same_machine w w' ->
  (forall url,
     url ∈ mainUrl :: (if String.eqb (platform w) "linux" then ANDROID_STDS else []) ->
     fetch w' url = fetch w url) ->
  run w' s = run w s.
Proof.
  intros Hurl Hsame Hfetch. pose proof Hsame as (Hp & Ha & _).
  unfold run.
  assert (platformKey w' = platformKey w) as -> by (unfold platformKey; by rewrite Hp, Ha).
  rewrite Hurl. apply bind_ext; [done|]. intros _ s1.
  apply bind_ext; [done|]. intros _ s2.
  apply try_catch_ext. apply bind_ext.
  { apply downloadAndExtract_ext; [done|]. apply Hfetch. by left. }
  intros _ s3. rewrite Hp, (setupIndependentRust_ext w w') by done.
  apply bind_ext; [|done].
  destruct (String.eqb (platform w) "linux"); [|done].
  apply bind_ext; [done|]. intros _ s4. apply for_each_ext.
  intros url Hin s5. apply downloadAndExtract_ext; [done|]. apply Hfetch. by right.
Qed.

(** * The claims *)

(** C3.  On a platform key outside the supported set, [run] prints the
    unsupported-platform diagnostic and exits with status 1, and the file
    system is what it was: nothing is created, written or removed. *)
Theorem unsupported_platform_exits (w : World) (s : state) :
  platformKey w ∉ supported ->
  run w s = Halt (ProcessExit 1)
              (State (disk s) (console s ++ [ErrUnsupportedPlatform (platformKey w)])) /\
  exit_status (run w s) <> 0 /\
  disk (final_state (run w s)) = disk s.
Proof.
  intros H.
  assert (E : run w s = Halt (ProcessExit 1)
                (State (disk s) (console s ++ [ErrUnsupportedPlatform (platformKey w)]))).
  { unfold run. rewrite (PLATFORMS_unsupported _ H). reflexivity. }
  rewrite E. simpl. repeat split. discriminate.
Qed.

Lemma unsupported_platform_exits_witness :
  (platformKey Sample.win32_x64 ∉ supported) /\
  run Sample.win32_x64 Sample.fresh =
    Halt (ProcessExit 1) (State ∅ [ErrUnsupportedPlatform "win32-x64"]).
Proof.
  assert (H : platformKey Sample.win32_x64 ∉ supported).
  { apply targetTriple_empty. reflexivity. }
  split; [exact H|].
  exact (proj1 (unsupported_platform_exits Sample.win32_x64 Sample.fresh H)).
Defined.

(** C7, counterexample: on win32-x64 the assembler, entered with the empty
    triple, runs to its end and reports success. *)
Lemma assembler_accepts_empty_triple : ~ assembler_rejects_empty_triple.
Proof.
  intros H.
  destruct (H Sample.win32_x64 ["extract"] Sample.fresh) as [_ Hno].
  { apply targetTriple_empty. reflexivity. }
  apply (Hno (final_state (setupIndependentRust Sample.win32_x64 ["extract"] Sample.fresh))).
  evaluate.
Qed.

(** C7, amended.  The triple is a function of the platform key alone and is
    empty outside the mapped set; the assembler does not look at it, but [run]
    never reaches the assembler with an empty triple: it stops on the platform
    table first, with the unsupported-platform diagnostic and status 1, before
    anything is created, fetched or assembled. *)
Theorem empty_triple_rejected_by_run (w : World) (s : state) :
  platformKey w ∉ supported ->
  targetTriple (platformKey w) = "" /\
  (forall w', platformKey w' = platformKey w ->
              targetTriple (platformKey w') = targetTriple (platformKey w)) /\
  run w s = Halt (ProcessExit 1)
              (State (disk s) (console s ++ [ErrUnsupportedPlatform (platformKey w)])).
Proof.
  intros H. split; [by apply targetTriple_unsupported|]. split.
  - by intros w' ->.
  - unfold run. rewrite (PLATFORMS_unsupported _ H). reflexivity.
Qed.

Lemma empty_triple_rejected_by_run_witness :
  targetTriple (platformKey Sample.win32_x64) = "" /\
  run Sample.win32_x64 Sample.fresh =
    Halt (ProcessExit 1) (State ∅ [ErrUnsupportedPlatform "win32-x64"]).
Proof.
  assert (H : platformKey Sample.win32_x64 ∉ supported).
  { apply targetTriple_empty. reflexivity. }
  destruct (empty_triple_rejected_by_run Sample.win32_x64 Sample.fresh H) as (H1 & _ & H2).
  split; [exact H1|exact H2].
Defined.

(** C10.  When [downloadAndExtract] completes, the archive it downloaded is
    gone from the download directory. *)
Theorem archive_removed_after_extraction
    (w : World) (url name : string) (extractPath : path) (s s' : state) :
  url_basename w url = Some name ->
  downloadAndExtract w url extractPath s = Ok tt s' ->
  stat (disk s') (join ["download"; name]) = None.
Proof.
  intros Hname H. unfold downloadAndExtract in H. rewrite Hname in H.
  apply bind_Ok in H as (_ & s1 & _ & H).
  apply bind_Ok in H as (promise & s2 & _ & H).
  unfold settle in H. destruct promise; [discriminate|].
  apply bind_Ok in H as (_ & s3 & _ & H).
  apply bind_Ok in H as (_ & s4 & _ & H).
  apply bind_Ok in H as (code & s5 & _ & H).
  destruct (negb (code =? 0)); [discriminate|].
  unfold detached in H.
  destruct (call Rm _ _ s5) as [[] s6| |] eqn:Hrm; try discriminate.
  injection H as <-.
  apply call_Ok in Hrm as (fs' & Hrm & ->). simpl.
  by apply rm_Done in Hrm as (_ & _ & ?).
Qed.

Lemma archive_removed_after_extraction_witness :
  stat (disk (final_state
          (downloadAndExtract Sample.linux_x64 Sample.main_url ["extract"] Sample.fresh)))
       Sample.main_archive = None.
Proof.
  apply (archive_removed_after_extraction Sample.linux_x64 Sample.main_url
           "rust-1.92.0-x86_64-unknown-linux-gnu.tar.xz" ["extract"] Sample.fresh).
  - reflexivity.
  - apply returned_Ok. evaluate.
Defined.




(** C8.  A copy step whose source is missing prints the warning, leaves the
    file system as it is and returns, so the steps after it run; and the
    assembler as a whole never stops the process and never fails on a missing
    source: what it can throw comes from a directory it could not create or
    from the copy of a source that is there. *)
Theorem missing_source_is_skipped
    (w : World) (unpackedPath src dest : path) (s : state) :
  exists_at (disk s) src = false ->
  copyDir src dest s = Ok tt (State (disk s) (console s ++ [WarnSourceNotFound src])) /\
  forall s0, match setupIndependentRust w unpackedPath s0 with
             | Ok _ _ => True
             | Throw e _ => not_missing_source e
             | Halt _ _ => False
             end.
Proof.
  intros H. split.
  - unfold copyDir, bind, existsSync. rewrite H. reflexivity.
  - apply fails_only_setupIndependentRust.
Qed.

Lemma missing_source_is_skipped_witness :
  copyDir ["extract"; "cargo"; "bin"] ["extract"; "dist"; "bin"] Sample.fresh =
    Ok tt (State ∅ [WarnSourceNotFound ["extract"; "cargo"; "bin"]]).
Proof.
  apply (missing_source_is_skipped Sample.linux_x64 ["extract"]
           ["extract"; "cargo"; "bin"] ["extract"; "dist"; "bin"] Sample.fresh).
  reflexivity.
Defined.

(** C6.  After a run that completes, the file at [dist/bin/rustc] has mode
    0755, execute bits set for owner, group and other, whatever mode the
    archive gave it. *)
Theorem rustc_executable_after_run (w : World) (s s' : state) (m : Z) (c : list byte) :
  run w s = Ok tt s' ->
  stat (disk s') ["dist"; "bin"; "rustc"] = Some (EFile m c) ->
  m = mode_0755 /\ executable_by_all m = true.
Proof.
  intros H Hfile.
  assert (m = mode_0755) as ->; [|by split].
  unfold run in H. destruct (truthy _) as [mainUrl|]; [|discriminate].
  apply bind_Ok in H as (_ & s1 & _ & H).
  apply bind_Ok in H as (_ & s2 & _ & H).
  apply try_catch_Ok in H as [H|(e & s3 & _ & H)]; [|discriminate].
  apply bind_Ok in H as (_ & s3 & _ & H).
  apply bind_Ok in H as (_ & s4 & _ & H).
  apply bind_Ok in H as (_ & s5 & _ & H).
  apply bind_Ok in H as (found & s6 & Hfound & H).
  injection Hfound as <- <-.
  unfold exists_at, BINARY_NAME in H. simpl in H, Hfile.
  destruct (disk s5 !! ["dist"; "bin"; "rustc"]) as [[m0 c0|]|] eqn:E.
  - apply bind_Ok in H as ([] & s7 & Hch & H). injection H as <-. simpl in Hfile.
    apply call_Ok in Hch as (fs' & Hch & ->). simpl in Hfile.
    unfold chmod in Hch. simpl in Hch. rewrite E in Hch. injection Hch as <-.
    rewrite lookup_insert_eq in Hfile. congruence.
  - apply bind_Ok in H as ([] & s7 & Hch & H). injection H as <-. simpl in Hfile.
    apply call_Ok in Hch as (fs' & Hch & ->). simpl in Hfile.
    unfold chmod in Hch. simpl in Hch. rewrite E in Hch. injection Hch as <-.
    congruence.
  - injection H as <-. congruence.
Qed.

Lemma rustc_executable_after_run_witness :
  (exists s, Sample.toolchain "x86_64-unknown-linux-gnu" [x7f; x45; x4c] !! 2%nat =
               Some (["rustc"; "bin"; "rustc"], EFile 420 [x7f; x45; x4c]) /\
             run Sample.linux_x64 Sample.fresh = Ok tt s /\
             stat (disk s) ["dist"; "bin"; "rustc"] = Some (EFile 493 [x7f; x45; x4c])) /\
  executable_by_all 493 = true.
Proof.
  assert (Hrun : run Sample.linux_x64 Sample.fresh =
                 Ok tt (final_state (run Sample.linux_x64 Sample.fresh)))
    by (apply returned_Ok; evaluate).
  assert (Hfile : stat (disk (final_state (run Sample.linux_x64 Sample.fresh)))
                    ["dist"; "bin"; "rustc"] = Some (EFile 493 [x7f; x45; x4c]))
    by evaluate.
  split.
  - exists (final_state (run Sample.linux_x64 Sample.fresh)).
    split; [reflexivity|]. split; [exact Hrun|exact Hfile].
  - exact (proj2 (rustc_executable_after_run Sample.linux_x64 Sample.fresh
                    (final_state (run Sample.linux_x64 Sample.fresh)) 493 [x7f; x45; x4c]
                    Hrun Hfile)).
Defined.







Lemma PLATFORMS_supported (key : string) :
  key ∈ supported -> exists mainUrl, truthy (PLATFORMS !! key) = Some mainUrl.
Proof.
  unfold supported. intros Hin.
  repeat (apply elem_of_cons in Hin as [->|Hin]; [eexists; vm_compute; reflexivity|]).
  by apply elem_of_nil in Hin.
Qed.

(** C2.  On a supported platform [run] deals with the platform's toolchain
    archive and, if and only if the host operating system is Linux, with the
    Android archives after it; on any other host the list of supplementary
    archives is empty.
    - Fetched: these are the URLs requested, in this order; what the run
      does depends on the network through the answers for these URLs and no
      others; and a run that returns has had each of them delivered and
      unpacked by [tar].
    - Installed: a Linux run that returns has put under [lib/rustlib] of the
      output the standard library of every Android archive that holds one
      ([tar] removing nothing of what is staged); the assembler on Linux
      installs every Android standard library that is staged; and on any
      other host what it puts under [lib/rustlib] is only what the toolchain
      archive itself staged, whatever else lies in the staging root. *)
Theorem supplementary_only_on_linux (w : World) (s : state) :
  platformKey w ∈ supported ->
  let linux := String.eqb (platform w) "linux" in
  let supplementary := if linux then ANDROID_STDS else [] in
  exists mainUrl,
    truthy (PLATFORMS !! platformKey w) = Some mainUrl /\
    (exists requested,
       requested `prefix_of` (mainUrl :: supplementary) /\
       fetched (console (final_state (run w s))) = fetched (console s) ++ requested /\
       forall s', run w s = Ok tt s' -> requested = mainUrl :: supplementary) /\
    (forall w',
       same_machine w w' ->
       (forall url, url ∈ mainUrl :: supplementary -> fetch w' url = fetch w url) ->
       run w' s = run w s) /\
    (forall s',
       run w s = Ok tt s' ->
       Forall (delivered w) (mainUrl :: supplementary) /\
       (linux = true ->
        tar_keeps w ->
        forall i url target r,
          ANDROID_STDS !! i = Some url ->
          androidTargets !! i = Some target ->
          fetch w url = inr r ->
          holds_std w (concat (chunks r)) target ->
          installed s' ["lib"; "rustlib"; target])) /\
    (forall s0 s1,
       setupIndependentRust w ["extract"] s0 = Ok tt s1 ->
       if linux then
         forall target,
           target ∈ androidTargets ->
           staged s0 (std_rustlib target ++ [target]) ->
           installed s1 ["lib"; "rustlib"; target]
       else
         tree (disk s0) ->
         forall name,
           installed s1 ["lib"; "rustlib"; name] <->
           staged s0 ["rustc"; "lib"; "rustlib"; name] \/
           staged s0 (std_rustlib (targetTriple (platformKey w)) ++ [name])).
Proof.
  intros Hsup linux supplementary.
  destruct (PLATFORMS_supported _ Hsup) as [mainUrl Hurl].
  exists mainUrl. split; [exact Hurl|]. split; [|split; [|split]].
  - destruct (emits_run w mainUrl Hurl s) as (requested & P & E & O). eauto.
  - intros w' Hsame Hfetch. by apply (run_ext w w' mainUrl).
  - intros s' H. split; [by apply (run_delivered w mainUrl s s')|].
    intros Hlinux Hkeep i url target r Hi Ht Hfetch Hstd.
    by apply (run_installs_android w mainUrl s s' i url target r).
  - intros s0 s1 H. subst linux. destruct (String.eqb (platform w) "linux") eqn:Hlinux.
    + intros target Hin Hst. by apply (android_installed w s0 s1).
    + intros Htree name.
      rewrite (installed_rustlib w s0 s1 name Htree H), Hlinux. split; [|tauto].
      intros [?|[?|Hin]]; [tauto..|by apply elem_of_nil in Hin].
Qed.

Lemma untar_keeps (lenient : bool) (host : string) (bytes : list byte) (below : FS)
    (q : path) :
  is_Some (below !! q) -> is_Some ((Sample.untar lenient host bytes below).2 !! q).
Proof.
  intros H. destruct bytes as [|b bytes]; [by destruct lenient|].
  destruct b; cbn [Sample.untar snd]; apply lookup_union_is_Some; by right.
Qed.

Lemma supplementary_only_on_linux_witness :
  returned (run Sample.linux_x64 Sample.fresh) = true /\
  installed (final_state (run Sample.linux_x64 Sample.fresh))
    ["lib"; "rustlib"; "aarch64-linux-android"] /\
  fetched (console (final_state (run Sample.linux_x64 Sample.fresh))) =
    "https://static.rust-lang.org/dist/rust-1.92.0-x86_64-unknown-linux-gnu.tar.xz"
    :: ANDROID_STDS /\
  fetched (console (final_state (run Sample.darwin_arm64 Sample.fresh))) =
    ["https://static.rust-lang.org/dist/rust-1.92.0-aarch64-apple-darwin.tar.xz"].
Proof.
  assert (Hlinux : platformKey Sample.linux_x64 ∈ supported)
    by (unfold supported; repeat constructor).
  assert (Hdarwin : platformKey Sample.darwin_arm64 ∈ supported)
    by (unfold supported; repeat constructor).
  destruct (supplementary_only_on_linux Sample.linux_x64 Sample.fresh Hlinux)
    as (u1 & U1 & (r1 & _ & E1 & O1) & _ & I1 & _).
  destruct (supplementary_only_on_linux Sample.darwin_arm64 Sample.fresh Hdarwin)
    as (u2 & U2 & (r2 & _ & E2 & O2) & _).
  clear Hlinux Hdarwin.
  assert (R1 : returned (run Sample.linux_x64 Sample.fresh) = true) by evaluate.
  assert (R2 : returned (run Sample.darwin_arm64 Sample.fresh) = true) by evaluate.
  assert (V1 : truthy (PLATFORMS !! platformKey Sample.linux_x64) =
               Some "https://static.rust-lang.org/dist/rust-1.92.0-x86_64-unknown-linux-gnu.tar.xz")
    by evaluate.
  assert (V2 : truthy (PLATFORMS !! platformKey Sample.darwin_arm64) =
               Some "https://static.rust-lang.org/dist/rust-1.92.0-aarch64-apple-darwin.tar.xz")
    by evaluate.
  rewrite V1 in U1. rewrite V2 in U2. injection U1 as <-. injection U2 as <-.
  split; [exact R1|]. split; [|split].
  - destruct (I1 _ (returned_Ok _ R1)) as [_ I].
    apply (I eq_refl) with
      (i := 3%nat)
      (url := "https://static.rust-lang.org/dist/rust-std-1.92.0-aarch64-linux-android.tar.xz")
      (r := Response 200 "OK" 3 [[x04; x45]; [x4c]] None).
    + intros bytes below q. apply untar_keeps.
    + reflexivity.
    + reflexivity.
    + reflexivity.
    + intros below. cbn [concat app chunks Sample.linux_x64 Sample.host tar Sample.untar snd].
      apply lookup_union_is_Some. left. exists EDir. evaluate.
  - rewrite E1, (O1 _ (returned_Ok _ R1)). reflexivity.
  - rewrite E2, (O2 _ (returned_Ok _ R2)). reflexivity.
Defined.

(** C5 (the code departs from the claim).  [downloadAndExtract] never fails
    with the empty-download error.  A 200 answer with an empty body is
    streamed into an empty archive file and handed to [tar]: where [tar]
    accepts it the download succeeds; where [tar] refuses it the failure is
    the extraction error and the empty file stays at the archive's path.  The
    script's first revision, [download], does reject the empty body, and
    leaves no file. *)
Theorem empty_body_is_not_rejected :
  (forall w url extractPath s s',
     downloadAndExtract w url extractPath s <> Throw EmptyDownload s') /\
  (exists s',
     downloadAndExtract (Sample.linux_empty_body true) Sample.main_url ["extract"]
       Sample.fresh = Ok tt s') /\
  (exists s',
     downloadAndExtract (Sample.linux_empty_body false) Sample.main_url ["extract"]
       Sample.fresh = Throw (TarFailed Sample.main_url) s' /\
     stat (disk s') Sample.main_archive = Some (EFile new_file_mode [])) /\
  (exists s',
     Legacy.download (Sample.linux_empty_body true) Sample.fresh =
       Halt (ProcessExit 1) s' /\
     last (console s') = Some (ErrInstallationFailed EmptyDownload) /\
     stat (disk s') ["temp-archive.tar.xz"] = None).
Proof.
  split; [|split; [|split]].
  - intros w url extractPath s s' H.
    by apply (throws_only_downloadAndExtract w url extractPath s _ _ H).
  - exists (final_state (downloadAndExtract (Sample.linux_empty_body true)
                           Sample.main_url ["extract"] Sample.fresh)).
    evaluate.
  - exists (final_state (downloadAndExtract (Sample.linux_empty_body false)
                           Sample.main_url ["extract"] Sample.fresh)).
    split; evaluate.
  - exists (final_state (Legacy.download (Sample.linux_empty_body true) Sample.fresh)).
    split; [|split]; evaluate.
Qed.

(** C9 (the code departs from the claim).  When extraction fails, [run]
    prints the failure and exits with status 1, but the archive stays in the
    download directory; when the write stream fails on its last write, the
    partly written archive stays as well.  Both failures reach the caller
    through the promise that [downloadAndExtract] returns without awaiting
    it, past the [catch] block that removes the file.  The script's first
    revision, [download], throws inside its [try] block and removes the
    archive. *)
Theorem failed_step_leaves_archive :
  (let r := run Sample.linux_broken_tar Sample.fresh in
   exit_status r = 1 /\
   last (console (final_state r)) =
     Some (ErrInstallationFailed (TarFailed Sample.main_url)) /\
   stat (disk (final_state r)) Sample.main_archive =
     Some (EFile new_file_mode [x7f; x45; x4c])) /\
  (let r := run Sample.linux_disk_full Sample.fresh in
   exit_status r = 1 /\
   last (console (final_state r)) =
     Some (ErrInstallationFailed (StreamError Sample.main_archive)) /\
   stat (disk (final_state r)) Sample.main_archive =
     Some (EFile new_file_mode [x7f; x45])) /\
  (let r := Legacy.download Sample.linux_broken_tar Sample.fresh in
   exit_status r = 1 /\
   last (console (final_state r)) = Some (ErrInstallationFailed TarFailedPlain) /\
   stat (disk (final_state r)) ["temp-archive.tar.xz"] = None).
Proof.
  cbv zeta. repeat split; evaluate.
Qed.

(** * Further properties of the script *)

(** X1.  A download that fails on the network -- [fetch] rejects, or the body
    breaks off after some chunks, all of which the write stream, opened in
    the download directory, has taken -- throws that error on, having
    reported it, and leaves nothing at the archive's path: what was flushed
    to the file up to then is removed, and so is a file that was there from
    before.  Nothing else changes but the download directory, created if it
    was missing. *)
Theorem network_error_leaves_no_archive
    (w : World) (url name reason : string) (extractPath : path) (s : state) :
  url_basename w url = Some name ->
  name <> "" ->
  is_dir (disk s) ["download"; name] = false ->
  fetch w url = inl reason \/
    (exists r,
       fetch w url = inr r /\ ok r = true /\ aborted r = Some reason /\
       (exists_at (disk s) ["download"] = false \/ is_dir (disk s) ["download"] = true) /\
       accepted w ["download"; name] (chunks r) = length (chunks r)) ->
  exists s',
    downloadAndExtract w url extractPath s = Throw (NetworkError reason) s' /\
    last (console s') = Some (ErrFailedToDownload url (NetworkError reason)) /\
    stat (disk s') ["download"; name] = None /\
    forall q, q <> ["download"] -> q <> ["download"; name] -> disk s' !! q = disk s !! q.
Proof.
  intros Hname Hne Hdir Hfetch.
  unfold downloadAndExtract. rewrite Hname, (join_download _ Hne).
  destruct (ensure_download s) as (s1 & E1 & Hc1 & Hd1 & Hframe).
  unfold bind at 1. rewrite E1.
  assert (Hdir1 : is_dir (disk s1) ["download"; name] = false).
  { unfold is_dir in *. cbn [stat] in *. by rewrite Hframe. }
  unfold bind at 1. unfold try_catch. unfold bind at 1. unfold print at 1.
  set (s2 := State (disk s1) (console s1 ++ [LogFetching url])).
  destruct Hfetch as [Hfetch|(r & Hfetch & Hok & Hab & Hdl & Hall)]; rewrite Hfetch.
  - unfold throw at 1.
    destruct (cleanup_rethrow url ["download"; name] (NetworkError reason) s2)
      as (s' & -> & Hc & Hd); [done..|].
    exists s'. split; [done|]. split; [by rewrite Hc, last_snoc|].
    cbn [stat]. rewrite Hd, decide_True by done. split; [done|].
    intros q Hq1 Hq2. rewrite Hd, decide_False by done. by apply Hframe.
  - rewrite Hok. cbn [negb].
    pose proof (stream_to_not_dir w ["download"; name] name r s2) as Hnd.
    pose proof (fun q => stream_to_frame w ["download"; name] name r s2 q) as Hfr.
    assert (Hthrow : exists s3, stream_to w ["download"; name] name r s2 =
                                  Throw (NetworkError reason) s3).
    { destruct (open_write_Done ["download"; name] (disk s2)) as (fs' & Hopen & _).
      - done.
      - exact Hdir1.
      - assert (Hdl1 : disk s1 !! ["download"] = Some EDir).
        { rewrite Hd1. unfold exists_at, is_dir in Hdl. cbn [stat] in Hdl.
          destruct (disk s !! ["download"]) as [[|]|]; destruct Hdl; done. }
        right. unfold is_dir, s2. simpl. by rewrite Hdl1.
      - destruct (stream_to_opened w _ name r s2 fs' Hopen) as (s3 & -> & _).
        rewrite Hall, Hab, Nat.ltb_irrefl.
        assert ((S (length (chunks r)) <? length (chunks r))%nat = false) as ->
          by (apply Nat.ltb_ge; lia).
        eauto. }
    destruct Hthrow as (s3 & E3). rewrite E3 in *. cbn [final_state] in *.
    destruct (cleanup_rethrow url ["download"; name] (NetworkError reason) s3)
      as (s' & -> & Hc & Hd); [done|by apply Hnd|].
    exists s'. split; [done|]. split; [by rewrite Hc, last_snoc|].
    cbn [stat]. rewrite Hd, decide_True by done. split; [done|].
    intros q Hq1 Hq2. rewrite Hd, decide_False, Hfr by done. by apply Hframe.
Qed.


(** X3.  When [tar] reports failure, the download is rejected with the
    extraction error for its URL, without the line of the catch block, and
    the archive stays in the download directory with the whole body in it. *)
Theorem tar_failure_leaves_archive
    (w : World) (url name : string) (r : response) (extractPath : path) (s : state) :
  url_basename w url = Some name ->
  name <> "" ->
  is_dir (disk s) ["download"; name] = false ->
  exists_at (disk s) ["download"] = false \/ is_dir (disk s) ["download"] = true ->
  fetch w url = inr r ->
  ok r = true ->
  aborted r = None ->
  disk_fault w ["download"; name] = None ->
  under extractPath ["download"; name] = None ->
  (forall fs, (tar w (concat (chunks r)) fs).1 <> 0) ->
  exists s' m,
    downloadAndExtract w url extractPath s = Throw (TarFailed url) s' /\
    stat (disk s') ["download"; name] = Some (EFile m (concat (chunks r))) /\
    last (console s') = Some (LogExtracting name).
Proof.
  intros Hname Hne Hdir Hdl Hfetch Hok Hab Hfault Hout Htar.
  destruct (downloadAndExtract_settles w url name r extractPath s
              Hname Hne Hdir Hdl Hfetch Hok Hab) as (s2 & -> & Hc & Hfile & _ & Hframe).
  unfold accepted in *. rewrite Hfault in *.
  assert ((S (length (chunks r)) <? length (chunks r))%nat = false) as ->
    by (apply Nat.ltb_ge; lia).
  rewrite Nat.ltb_irrefl. rewrite take_ge in Hfile by done.
  rewrite take_ge in Hc by (rewrite totals_length; lia).
  destruct (settle_extracts w url name ["download"; name] extractPath s2 _ _
              ltac:(done) Hfile Hout) as (s3 & Hc3 & Hd3 & ->).
  destruct (Z.eqb_spec (tar w (concat (chunks r)) (rebase extractPath [] (disk s2))).1 0)
    as [E|_]; [by apply Htar in E|].
  exists s3. eexists. split; [reflexivity|]. split.
  - cbn [stat]. rewrite Hd3, Hout. exact Hfile.
  - rewrite Hc3. by rewrite (last_app_cons _ _ _), last_cons.
Qed.

(** X4.  A download with nothing in its way.  The body is written to the
    archive, [tar] is run on those bytes and on what is at and below the
    extraction directory, and when it reports success the extraction
    directory holds what [tar] left there, the archive is gone, and nothing
    else has changed but the download directory, which is there. *)
Theorem download_unpacks_archive
    (w : World) (url name : string) (r : response) (extractPath : path) (s : state) :
  url_basename w url = Some name ->
  name <> "" ->
  is_dir (disk s) ["download"; name] = false ->
  exists_at (disk s) ["download"] = false \/ is_dir (disk s) ["download"] = true ->
  fetch w url = inr r ->
  ok r = true ->
  aborted r = None ->
  disk_fault w ["download"; name] = None ->
  under extractPath ["download"; name] = None ->
  let out := tar w (concat (chunks r)) (rebase extractPath [] (disk s)) in
  out.1 = 0 ->
  exists s',
    downloadAndExtract w url extractPath s = Ok tt s' /\
    (forall p, disk s' !! (extractPath ++ p) = out.2 !! p) /\
    stat (disk s') ["download"; name] = None /\
    is_dir (disk s') ["download"] = true /\
    (forall q, under extractPath q = None -> q <> ["download"] -> q <> ["download"; name] ->
               disk s' !! q = disk s !! q) /\
    console s' =
      console s ++ LogFetching url :: LogDownloading name
        :: map (progress_line (totalSize r)) (totals 0 (chunks r))
        ++ [LogDownloadComplete; LogExtracting name].
Proof.
  intros Hname Hne Hdir Hdl Hfetch Hok Hab Hfault Hout out Hcode.
  destruct (downloadAndExtract_settles w url name r extractPath s
              Hname Hne Hdir Hdl Hfetch Hok Hab) as (s2 & -> & Hc & Hfile & Hdir2 & Hframe).
  unfold accepted in *. rewrite Hfault in *.
  assert ((S (length (chunks r)) <? length (chunks r))%nat = false) as ->
    by (apply Nat.ltb_ge; lia).
  rewrite Nat.ltb_irrefl. rewrite take_ge in Hfile by done.
  rewrite take_ge in Hc by (rewrite totals_length; lia).
  destruct (settle_extracts w url name ["download"; name] extractPath s2 _ _
              ltac:(done) Hfile Hout) as (s3 & Hc3 & Hd3 & ->).
  assert (Hsame : rebase extractPath [] (disk s2) = rebase extractPath [] (disk s)).
  { apply rebase_ext. intros p. apply Hframe.
    - intros E. pose proof (under_prefix_None extractPath ["download"] [name] Hout) as U.
      by rewrite <- E, under_app in U.
    - intros E. by rewrite <- E, under_app in Hout. }
  rewrite Hsame in *. fold out in Hd3 |- *. rewrite Hcode. cbn [Z.eqb].
  eexists. split; [reflexivity|]. cbn [disk console stat is_dir].
  split; [|split; [|split; [|split]]].
  - intros p. rewrite lookup_delete_ne, Hd3, under_app; [done|].
    intros E. by rewrite E, under_app in Hout.
  - apply lookup_delete_eq.
  - unfold is_dir. cbn [stat disk]. rewrite lookup_delete_ne by done.
    rewrite Hd3, (under_prefix_None extractPath ["download"] [name] Hout), Hdir2. done.
  - intros q Hq1 Hq2 Hq3. rewrite lookup_delete_ne, Hd3, Hq1 by done. by apply Hframe.
  - rewrite Hc3, Hc. rewrite <- app_assoc. reflexivity.
Qed.

(** X5.  Whatever a download does, and however it ends, it changes nothing
    outside the download directory and the extraction directory. *)
Theorem download_stays_in_its_directories
    (w : World) (url : string) (extractPath : path) (s : state) (q : path) :
  under ["download"] q = None ->
  under extractPath q = None ->
  disk (final_state (downloadAndExtract w url extractPath s)) !! q = disk s !! q.
Proof.
  intros Hq1 Hq2. apply confined_downloadAndExtract.
  by apply outside_download_area.
Qed.

(** X6.  [run] never lets an exception or a rejection escape.  It returns;
    or it ends the process with status 1 after a diagnostic, the
    unsupported-platform line or the installation-failed line with the
    error that stopped it; or the process is ended, without that
    diagnostic, by the ['error'] event of a write stream that failed while
    its download was still reading. *)
Theorem run_returns_or_exits (w : World) (s : state) :
  (exists s', run w s = Ok tt s') \/
  (exists s' m,
     run w s = Halt (ProcessExit 1) s' /\
     last (console s') = Some m /\
     (m = ErrUnsupportedPlatform (platformKey w) \/ exists e, m = ErrInstallationFailed e)) \/
  (exists s' p, run w s = Halt (Uncaught (StreamError p)) s').
Proof.
  unfold run. destruct (truthy (PLATFORMS !! platformKey w)) as [mainUrl|].
  - destruct (reset_staging s) as (s2 & -> & _).
    unfold try_catch.
    pose proof (halts_only_run_body w mainUrl s2) as Hbody.
    match goal with
    | |- context [match ?b s2 with _ => _ end] =>
        destruct (b s2) as [[] s3|e s3|h s3]
    end.
    + left. eauto.
    + right. left. eexists. eexists. split; [reflexivity|]. cbn [console].
      rewrite last_snoc. eauto.
    + right. right. destruct (Hbody h s3 eq_refl) as [p ->]. eauto.
  - right. left. eexists. eexists. split; [reflexivity|]. cbn [console].
    rewrite last_snoc. eauto.
Qed.

(** X7.  A run that returns has printed the success line if and only if the
    compiler is in the output directory at the end; when it is not there,
    the run returns all the same, and the last line printed is the
    assembler's. *)
Theorem success_reported_iff_executable (w : World) (s s' : state) :
  run w s = Ok tt s' ->
  last (console s') =
    Some (if exists_at (disk s') ["dist"; "bin"; BINARY_NAME]
          then LogSuccess ["dist"] else LogAssembled).
Proof.
  unfold run. destruct (truthy (PLATFORMS !! platformKey w)) as [mainUrl|]; [|done].
  destruct (reset_staging s) as (s2 & -> & _). intros H.
  apply try_catch_Ok in H as [H|(e & s3 & _ & H)]; [|done].
  apply bind_Ok in H as (_ & s3 & _ & H).
  apply bind_Ok in H as (_ & s4 & _ & H).
  apply bind_Ok in H as ([] & s5 & Hsetup & H).
  apply setupIndependentRust_last_line in Hsetup.
  unfold bind, existsSync, BINARY_NAME in *.
  cbn [join List.filter negb String.eqb Ascii.eqb Bool.eqb] in *.
  destruct (exists_at (disk s5) ["dist"; "bin"; "rustc"]) eqn:E.
  - unfold call, chmod, exists_at in *. cbn [stat] in *.
    destruct (disk s5 !! ["dist"; "bin"; "rustc"]) as [[m c|]|] eqn:E5; [| |done].
    + cbn beta iota in H. injection H as <-. cbn [disk console].
      rewrite lookup_insert_eq. apply last_snoc.
    + cbn beta iota in H. injection H as <-. cbn [disk console].
      rewrite E5. apply last_snoc.
  - injection H as <-. by rewrite E.
Qed.

(** X8.  A run stopped by a failed download leaves the installed toolchain as
    it was.  When [run] exits reporting an error that is not that of a file
    system call, nothing at or below the output directory has changed. *)
Theorem failed_download_keeps_installation (w : World) (s s' : state) (e : error) :
  run w s = Halt (ProcessExit 1) s' ->
  last (console s') = Some (ErrInstallationFailed e) ->
  (forall c code p, e <> SysError c code p) ->
  forall q, is_Some (under ["dist"] q) -> disk s' !! q = disk s !! q.
Proof.
  intros H Hlast Hkind q [r Hq]. apply under_Some in Hq. subst q. cbn [app].
  unfold run in H. destruct (truthy (PLATFORMS !! platformKey w)) as [mainUrl|].
  - destruct (reset_staging s) as (s2 & E & _ & Hd2). rewrite E in H. clear E.
    assert (Hs2 : disk s2 !! ("dist" :: r) = disk s !! ("dist" :: r))
      by (by rewrite Hd2).
    rewrite <- Hs2. clear Hd2 Hs2.
    unfold try_catch in H.
    pose proof (halts_only_run_body w mainUrl s2) as Hbody.
    cbn [join List.filter negb String.eqb Ascii.eqb Bool.eqb] in *.
    match type of H with
    | match ?b s2 with _ => _ end = _ => destruct (b s2) as [[] s3|e0 s3|h s3] eqn:Hb
    end; [done| |].
    2: { injection H as -> _. by destruct (Hbody _ _ eq_refl) as [p Hp]. }
    injection H as <-. cbn [console disk] in *. rewrite last_snoc in Hlast.
    injection Hlast as ->.
    assert (Hout : ~ download_area ["extract"] ("dist" :: r))
      by (by apply outside_download_area).
    apply bind_Throw in Hb as [Hb|([] & s4 & Hmain & Hb)].
    { pose proof (confined_downloadAndExtract w mainUrl ["extract"] s2 _ Hout) as C.
      by rewrite Hb in C. }
    pose proof (confined_downloadAndExtract w mainUrl ["extract"] s2 _ Hout) as C1.
    rewrite Hmain in C1. cbn [final_state] in C1. rewrite <- C1. clear C1 Hmain.
    apply bind_Throw in Hb as [Hb|([] & s5 & Handroid & Hb)].
    { match type of Hb with
      | ?m s4 = _ =>
          assert (C : confined (download_area ["extract"]) m)
      end.
      { destruct (String.eqb (platform w) "linux"); [|apply confined_ret].
        apply confined_bind; [apply confined_print|intros _].
        apply confined_for_each. intros url. apply confined_downloadAndExtract. }
      specialize (C s4 _ Hout). by rewrite Hb in C. }
    exfalso. apply bind_Throw in Hb as [Hb|([] & s6 & _ & Hb)].
    { pose proof (fails_only_setupIndependentRust w ["extract"] s5) as F.
      rewrite Hb in F. destruct e; try done. by eapply Hkind. }
    unfold bind, existsSync, call in Hb.
    destruct (exists_at _ _); [|done].
    destruct (chmod _ _ _); [done|]. injection Hb as <- _. by eapply Hkind.
  - injection H as <-. cbn [console] in Hlast. rewrite last_snoc in Hlast. done.
Qed.

(** X9.  However the assembler ends, what it has changed lies at or below
    its working directory [<unpacked>/dist], at or below the output directory
    [dist], or is one of the directories leading to the unpacking root, which
    it creates when they are missing.  The unpacked archives themselves, and
    everything else, are as they were. *)
Theorem assembly_stays_in_its_area
    (w : World) (unpackedPath : path) (s : state) (q : path) :
  under (unpackedPath ++ ["dist"]) q = None ->
  under ["dist"] q = None ->
  q = [] \/ is_prefix q unpackedPath = false ->
  disk (final_state (setupIndependentRust w unpackedPath s)) !! q = disk s !! q.
Proof.
  intros Hq1 Hq2 Hq3. apply confined_setupIndependentRust.
  unfold assembly_area. rewrite Hq1, Hq2.
  intros [[? ?]|[[? ?]|[? ?]]]; [done..|]. destruct Hq3; congruence.
Qed.

(** X10.  In the output directory a name that both [cargo/bin] and
    [rustc/bin] hold is the package manager's: its copy comes later and
    overwrites.  Mode and content are those of the staged file. *)
Theorem cargo_bin_overrides_rustc_bin (w : World) (s s' : state) (name : string) :
  tree (disk s) ->
  setupIndependentRust w ["extract"] s = Ok tt s' ->
  stat (disk s') ["dist"; "bin"; name] =
    match stat (disk s) ["extract"; "cargo"; "bin"; name] with
    | Some e => Some e
    | None => stat (disk s) ["extract"; "rustc"; "bin"; name]
    end.
Proof.
  intros Htree H. cbn [stat].
  rewrite (assembled_bin w s s' name Htree H).
  rewrite !from_tree by done. reflexivity.
Qed.

(** X11.  After an assembly the output directory is a copy of the working
    directory [extract/dist] and nothing more: whatever an earlier
    installation had left in [dist] is gone. *)
Theorem output_mirrors_working_directory (w : World) (s s' : state) :
  tree (disk s) ->
  setupIndependentRust w ["extract"] s = Ok tt s' ->
  is_dir (disk s') ["dist"] = true /\
  forall c r, disk s' !! ("dist" :: c :: r) = disk s' !! ("extract" :: "dist" :: c :: r).
Proof.
  intros Htree H.
  assemble s H;
    match goal with
    | L : forall q, disk _ !! q = copied ["extract"; "dist"] ["dist"] (disk ?s12) q |- _ =>
        dir_of s12 ["extract"; "dist"]
    end.
  all: match goal with
       | Lp : forall q, disk ?sf !! q = disk ?s13 !! q,
         Lc : forall q, disk ?s13 !! q = copied ["extract"; "dist"] ["dist"] (disk ?s12) q,
         Lm : forall q, disk ?s12 !! q = mkdired ["dist"] (disk ?s11) q,
         Lr : forall q, disk ?s11 !! q = cleared ["dist"] _ q,
         D : disk ?s12 !! ["extract"; "dist"] = Some EDir
         |- is_dir (disk ?sf) _ = true /\ _ =>
           split;
           [ unfold is_dir; cbn [stat]; rewrite Lp, Lc;
             erewrite copied_at by decide_path;
             unfold from, exists_at, stat; cbn [app]; rewrite D; reflexivity
           | intros c r; rewrite !Lp, !Lc;
             rewrite (copied_other _ _ _ ("extract" :: "dist" :: c :: r)) by decide_path;
             rewrite (copied_at _ _ _ ("dist" :: c :: r) (c :: r)) by decide_path;
             unfold from, exists_at, stat; cbn [app]; rewrite D;
             rewrite (Lm ("dist" :: c :: r)); unfold mkdired; simp_path;
             rewrite (Lr ("dist" :: c :: r)); unfold cleared; simp_path;
             apply orelse_None ]
       end.
Qed.

(** X12.  The first revision rejects an empty body.  A successful answer
    without a single byte ends the process with status 1 and the
    empty-download error as the last line; [tar] is not run, nothing is
    written, and a file left at the archive's path by an earlier run is
    removed. *)
Theorem legacy_download_rejects_empty_body
    (w : World) (url : string) (r : response) (s : state) :
  truthy (PLATFORMS !! platformKey w) = Some url ->
  is_dir (disk s) ["temp-archive.tar.xz"] = false ->
  fetch w url = inr r ->
  ok r = true ->
  aborted r = None ->
  concat (chunks r) = [] ->
  exists s',
    Legacy.download w s = Halt (ProcessExit 1) s' /\
    console s' = console s ++ [LogFetching url; ErrInstallationFailed EmptyDownload] /\
    stat (disk s') ["temp-archive.tar.xz"] = None /\
    forall q, q <> ["temp-archive.tar.xz"] -> disk s' !! q = disk s !! q.
Proof.
  intros Hurl Hdir Hfetch Hok Hab Hempty.
  unfold Legacy.download. rewrite Hurl. unfold try_catch.
  unfold bind at 1. unfold print at 1. rewrite Hfetch, Hok, Hab, Hempty.
  cbn [negb length Nat.eqb]. unfold throw at 1.
  destruct (legacy_cleanup EmptyDownload (State (disk s) (console s ++ [LogFetching url])))
    as (s' & -> & Hc & Hd); [exact Hdir|].
  exists s'. split; [reflexivity|]. cbn [console disk] in *. split; [|split].
  - rewrite Hc, <- app_assoc. reflexivity.
  - cbn [stat]. by rewrite Hd, decide_True.
  - intros q Hq. by rewrite Hd, decide_False.
Qed.

(** X13.  The first revision never leaves its temporary archive behind.
    On a supported platform, with no directory in the archive's place and a
    [tar] that does not touch the archive it reads, [download] returns or
    exits with status 1, and either way nothing is at the archive's path
    afterwards. *)
Theorem legacy_download_removes_archive (w : World) (url : string) (s : state) :
  truthy (PLATFORMS !! platformKey w) = Some url ->
  is_dir (disk s) ["temp-archive.tar.xz"] = false ->
  (forall bytes fs, (tar w bytes fs).2 !! ["temp-archive.tar.xz"] =
                    fs !! ["temp-archive.tar.xz"]) ->
  exists s',
    (Legacy.download w s = Ok tt s' \/ Legacy.download w s = Halt (ProcessExit 1) s') /\
    stat (disk s') ["temp-archive.tar.xz"] = None.
Proof.
  intros Hurl Hdir Htar.
  destruct (legacy_download_outcome w url s Hurl Hdir Htar) as (s' & [] & E & H);
    exists s'; split; auto.
Qed.


(** X15.  The two tables of the script agree with what the assembler looks
    for.  The archive [run] fetches for a platform key is the distribution
    for the triple that [setupIndependentRust] derives from the same key; and
    the Android archives are, in order, the standard libraries of the Android
    targets the assembler copies. *)
Theorem tables_agree :
  (forall key url,
     PLATFORMS !! key = Some url ->
     url = "https://static.rust-lang.org/dist/rust-1.92.0-" +:+ targetTriple key
           +:+ ".tar.xz") /\
  Forall2 (fun url target =>
             exists extension,
               url = "https://static.rust-lang.org/dist/rust-std-1.92.0-" +:+ target
                     +:+ extension)
          ANDROID_STDS androidTargets.
Proof.
  split.
  - intros key url H. destruct (decide (key ∈ supported)) as [Hin|Hout].
    + unfold supported in Hin.
      repeat (apply elem_of_cons in Hin as [->|Hin];
              [vm_compute in H; injection H as <-; reflexivity|]).
      by apply elem_of_nil in Hin.
    + by rewrite (PLATFORMS_unsupported key Hout) in H.
  - unfold ANDROID_STDS, androidTargets.
    repeat (apply Forall2_cons; split;
            [first [by exists ".tar.gz" | by exists ".tar.xz"]|]).
    apply Forall2_nil_2.
Qed.

Lemma network_error_leaves_no_archive_witness :
  exists s',
    downloadAndExtract Sample.linux_cut_off Sample.main_url ["extract"] Sample.fresh =
      Throw (NetworkError "terminated") s' /\
    stat (disk s') Sample.main_archive = None.
Proof.
  destruct (network_error_leaves_no_archive Sample.linux_cut_off Sample.main_url
              "rust-1.92.0-x86_64-unknown-linux-gnu.tar.xz" "terminated"
              ["extract"] Sample.fresh)
    as (s' & E & _ & H & _).
  - reflexivity.
  - discriminate.
  - reflexivity.
  - right. exists (Response 200 "OK" 3 [[x7f; x45]] (Some "terminated")).
    split; [reflexivity|]. split; [reflexivity|]. split; [reflexivity|].
    split; [left|]; reflexivity.
  - exists s'. split; [exact E|exact H].
Defined.


Lemma tar_failure_leaves_archive_witness :
  exists s' m,
    downloadAndExtract Sample.linux_broken_tar Sample.main_url ["extract"] Sample.fresh =
      Throw (TarFailed Sample.main_url) s' /\
    stat (disk s') Sample.main_archive = Some (EFile m [x7f; x45; x4c]).
Proof.
  destruct (tar_failure_leaves_archive Sample.linux_broken_tar Sample.main_url
              "rust-1.92.0-x86_64-unknown-linux-gnu.tar.xz"
              (Response 200 "OK" 3 [[x7f; x45]; [x4c]] None)
              ["extract"] Sample.fresh)
    as (s' & m & E & H & _).
  - reflexivity.
  - discriminate.
  - reflexivity.
  - left. reflexivity.
  - reflexivity.
  - reflexivity.
  - reflexivity.
  - reflexivity.
  - reflexivity.
  - intros fs. discriminate.
  - exists s', m. split; [exact E|exact H].
Defined.

Lemma download_unpacks_archive_witness :
  exists s',
    downloadAndExtract Sample.linux_x64 Sample.main_url ["extract"] Sample.fresh = Ok tt s' /\
    disk s' !! ["extract"; "rustc"; "bin"; "rustc"] = Some (EFile 420 [x7f; x45; x4c]) /\
    stat (disk s') Sample.main_archive = None.
Proof.
  destruct (download_unpacks_archive Sample.linux_x64 Sample.main_url
              "rust-1.92.0-x86_64-unknown-linux-gnu.tar.xz"
              (Response 200 "OK" 3 [[x7f; x45]; [x4c]] None)
              ["extract"] Sample.fresh)
    as (s' & E & Hin & Hgone & _).
  - reflexivity.
  - discriminate.
  - reflexivity.
  - left. reflexivity.
  - reflexivity.
  - reflexivity.
  - reflexivity.
  - reflexivity.
  - reflexivity.
  - reflexivity.
  - exists s'. split; [exact E|]. split; [|exact Hgone].
    etrans; [exact (Hin ["rustc"; "bin"; "rustc"])|evaluate].
Defined.

Lemma download_stays_in_its_directories_witness :
  disk (final_state (downloadAndExtract Sample.linux_x64 Sample.main_url ["extract"]
                       Sample.installed_before))
    !! ["dist"; "bin"; "rustc"] = Some (EFile 493 [x01]).
Proof.
  etrans.
  - apply (download_stays_in_its_directories Sample.linux_x64 Sample.main_url ["extract"]
             Sample.installed_before ["dist"; "bin"; "rustc"]); reflexivity.
  - reflexivity.
Defined.

Lemma success_reported_iff_executable_witness :
  returned (run (Sample.linux_empty_body true) Sample.fresh) = true /\
  exists_at (disk (final_state (run (Sample.linux_empty_body true) Sample.fresh)))
    ["dist"; "bin"; "rustc"] = false /\
  last (console (final_state (run (Sample.linux_empty_body true) Sample.fresh))) =
    Some LogAssembled.
Proof.
  assert (R : returned (run (Sample.linux_empty_body true) Sample.fresh) = true)
    by evaluate.
  assert (E : exists_at (disk (final_state (run (Sample.linux_empty_body true)
                                              Sample.fresh)))
                ["dist"; "bin"; "rustc"] = false) by evaluate.
  split; [exact R|]. split; [exact E|].
  pose proof (success_reported_iff_executable (Sample.linux_empty_body true) Sample.fresh
                _ (returned_Ok _ R)) as T.
  unfold BINARY_NAME in T. rewrite E in T. exact T.
Defined.

Lemma failed_download_keeps_installation_witness :
  exit_status (run Sample.linux_404 Sample.installed_before) = 1 /\
  disk (final_state (run Sample.linux_404 Sample.installed_before))
    !! ["dist"; "bin"; "rustc"] = Some (EFile 493 [x01]).
Proof.
  assert (H : halted (run Sample.linux_404 Sample.installed_before) = Some (ProcessExit 1))
    by evaluate.
  split; [evaluate|]. etrans.
  - apply (failed_download_keeps_installation Sample.linux_404 Sample.installed_before
             _ (HttpError 404 "Not Found") (halted_Halt _ _ H)).
    + evaluate.
    + intros c code p. discriminate.
    + exists ["bin"; "rustc"]. reflexivity.
  - reflexivity.
Defined.

Lemma assembly_stays_in_its_area_witness :
  disk (final_state (setupIndependentRust Sample.linux_x64 ["extract"] Sample.staged_linux))
    !! ["extract"; "rustc"; "bin"; "rustc"] = Some (EFile 420 [x7f; x45; x4c]).
Proof.
  etrans.
  - apply (assembly_stays_in_its_area Sample.linux_x64 ["extract"] Sample.staged_linux
             ["extract"; "rustc"; "bin"; "rustc"]); [reflexivity|reflexivity|].
    right. reflexivity.
  - evaluate.
Defined.

Lemma cargo_bin_overrides_rustc_bin_witness :
  stat (disk Sample.staged_clash) ["extract"; "rustc"; "bin"; "rustc"] =
    Some (EFile 420 [x7f; x45; x4c]) /\
  stat (disk (final_state (setupIndependentRust Sample.darwin_arm64 ["extract"]
                             Sample.staged_clash)))
    ["dist"; "bin"; "rustc"] = Some (EFile 493 [x01]).
Proof.
  split; [evaluate|].
  assert (R : returned (setupIndependentRust Sample.darwin_arm64 ["extract"]
                          Sample.staged_clash) = true) by evaluate.
  assert (Htree : tree (disk Sample.staged_clash))
    by (apply (bool_decide_unpack _); vm_cast_no_check I).
  etrans.
  - apply (cargo_bin_overrides_rustc_bin Sample.darwin_arm64 Sample.staged_clash _ "rustc"
             Htree (returned_Ok _ R)).
  - evaluate.
Defined.

Lemma output_mirrors_working_directory_witness :
  disk Sample.staged_over_old !! ["dist"; "old"] = Some (EFile 420 []) /\
  disk (final_state (setupIndependentRust Sample.darwin_arm64 ["extract"]
                       Sample.staged_over_old)) !! ["dist"; "old"] = None.
Proof.
  split; [evaluate|].
  assert (R : returned (setupIndependentRust Sample.darwin_arm64 ["extract"]
                          Sample.staged_over_old) = true) by evaluate.
  assert (Htree : tree (disk Sample.staged_over_old))
    by (apply (bool_decide_unpack _); vm_cast_no_check I).
  etrans.
  - apply (output_mirrors_working_directory Sample.darwin_arm64 Sample.staged_over_old _
             Htree (returned_Ok _ R)).
  - evaluate.
Defined.

Lemma legacy_download_rejects_empty_body_witness :
  exists s',
    Legacy.download (Sample.linux_empty_body true) Sample.fresh = Halt (ProcessExit 1) s' /\
    console s' = [LogFetching Sample.main_url; ErrInstallationFailed EmptyDownload].
Proof.
  destruct (legacy_download_rejects_empty_body (Sample.linux_empty_body true)
              Sample.main_url (Response 200 "OK" 0 [] None) Sample.fresh)
    as (s' & E & Hc & _).
  - evaluate.
  - reflexivity.
  - reflexivity.
  - reflexivity.
  - reflexivity.
  - reflexivity.
  - exists s'. split; [exact E|exact Hc].
Defined.

Lemma legacy_download_removes_archive_witness :
  exists s',
    (Legacy.download Sample.linux_broken_tar Sample.fresh = Ok tt s' \/
     Legacy.download Sample.linux_broken_tar Sample.fresh = Halt (ProcessExit 1) s') /\
    stat (disk s') ["temp-archive.tar.xz"] = None.
Proof.
  apply (legacy_download_removes_archive Sample.linux_broken_tar Sample.main_url Sample.fresh).
  - evaluate.
  - reflexivity.
  - intros bytes fs. reflexivity.
Defined.

Lemma tables_agree_witness :
  "https://static.rust-lang.org/dist/rust-1.92.0-x86_64-unknown-linux-gnu.tar.xz" =
  "https://static.rust-lang.org/dist/rust-1.92.0-" +:+ targetTriple "linux-x64" +:+ ".tar.xz".
Proof.
  apply (proj1 tables_agree "linux-x64"). evaluate.
Defined.

(** X16.  The intermediate revision of the assembler cannot be run twice.
    Its [mkdirSync] of the output directory has no [recursive] option and
    nothing clears the directory before: when [dist] is there already, the
    assembly does not come to its end. *)
Theorem draft_assembly_fails_over_existing_output
    (unpackedPath : path) (s s' : state) :
  unpackedPath <> [] ->
  exists_at (disk s) ["dist"] = true ->
  Draft.setupIndependentRust unpackedPath s <> Ok tt s'.
Proof.
  intros Hu Hdist H.
  assert (Hout : under (unpackedPath ++ ["dist"]) ["dist"] = None).
  { destruct unpackedPath as [|c [|d u]]; [done|..]; simpl; by destruct (String.eqb c "dist"). } unfold exists_at in Hdist. cbn [stat] in Hdist.
  assert (Hs : is_Some (disk s !! ["dist"])) by (by destruct (disk s !! ["dist"]); eauto).
  clear Hdist. unfold Draft.setupIndependentRust in H.
  cbv [String.append] in H.
  cbn [join List.filter negb String.eqb Ascii.eqb Bool.eqb app] in H.
  apply bind_Ok in H as ([] & s1 & H1 & H).
  pose proof (print_Ok _ _ _ H1 ["dist"]) as E1. clear H1.
  apply bind_Ok in H as ([] & s2 & H2 & H).
  apply (clear_keeps_outside _ ["dist"]) in H2; [|exact Hout].
  apply bind_Ok in H as ([] & s3 & H3 & H).
  pose proof (mkdirp_Ok _ _ _ H3 ["dist"]) as E3. clear H3.
  apply bind_Ok in H as ([] & s4 & H4 & H).
  pose proof (mkdirp_Ok _ _ _ H4 ["dist"]) as E4. clear H4.
  apply bind_Ok in H as ([] & s5 & H5 & H).
  pose proof (print_Ok _ _ _ H5 ["dist"]) as E5. clear H5.
  apply bind_Ok in H as ([] & s6 & H6 & H).
  pose proof (copyDir_keeps _ _ _ _ ["dist"] H6) as K6. clear H6.
  apply bind_Ok in H as ([] & s7 & H7 & H).
  pose proof (copyDir_keeps _ _ _ _ ["dist"] H7) as K7. clear H7.
  apply bind_Ok in H as ([] & s8 & H8 & H).
  pose proof (copyDir_keeps _ _ _ _ ["dist"] H8) as K8. clear H8.
  apply bind_Ok in H as ([] & s9 & H9 & H).
  pose proof (copyDir_keeps _ _ _ _ ["dist"] H9) as K9. clear H9.
  apply bind_Ok in H as ([] & s10 & H10 & _).
  apply call_Ok in H10 as (fs' & Hmk & _). unfold mkdir in Hmk. cbn [stat] in Hmk.
  assert (Hthere : is_Some (disk s9 !! ["dist"])).
  { apply K9, K8, K7, K6. rewrite E5, E4. apply made_keeps.
    rewrite E3. apply made_keeps. by rewrite H2, E1. }
  destruct Hthere as [e He]. by rewrite He in Hmk.
Qed.

Lemma draft_assembly_fails_over_existing_output_witness :
  exists_at (disk Sample.staged_over_old) ["dist"] = true /\
  returned (Draft.setupIndependentRust ["extract"] Sample.staged_over_old) = false /\
  thrown (Draft.setupIndependentRust ["extract"] Sample.staged_over_old) =
    Some (SysError Mkdir EEXIST ["dist"]).
Proof.
  split; [reflexivity|]. split; [|evaluate].
  destruct (returned (Draft.setupIndependentRust ["extract"] Sample.staged_over_old)) eqn:R;
    [|reflexivity].
  exfalso.
  apply (draft_assembly_fails_over_existing_output ["extract"] Sample.staged_over_old
           (final_state (Draft.setupIndependentRust ["extract"] Sample.staged_over_old)));
    [discriminate|reflexivity|apply returned_Ok, R].
Defined.

(** X17.  The installer writes only inside its three directories.  Whatever
    the platform, the network, the disk and [tar] do, and however [run] ends,
    no path outside [download], [extract] and [dist] is created, changed or
    removed. *)
Theorem run_stays_in_its_directories (w : World) (s : state) (q : path) :
  under ["download"] q = None ->
  under ["extract"] q = None ->
  under ["dist"] q = None ->
  disk (final_state (run w s)) !! q = disk s !! q.
Proof.
  intros H1 H2 H3. apply confined_run. unfold run_area. rewrite H1, H2, H3.
  intros [[? ?]|[[? ?]|[? ?]]]; done.
Qed.

(** X18.  [run] does not look at what an earlier run left in the staging
    root.  On a supported platform, two runs that start from well-formed
    trees that differ only at and below [extract], with the same console, end
    in the same way and in the same state. *)
Theorem stale_staging_is_ignored (w : World) (mainUrl : string) (s1 s2 : state) :
  truthy (PLATFORMS !! platformKey w) = Some mainUrl ->
  tree (disk s1) ->
  tree (disk s2) ->
  (forall q, under ["extract"] q = None -> disk s1 !! q = disk s2 !! q) ->
  console s1 = console s2 ->
  run w s1 = run w s2.
Proof.
  intros Hurl T1 T2 Hsame Hconsole. unfold run. rewrite Hurl.
  destruct (reset_staging s1) as (a & -> & C1 & D1).
  destruct (reset_staging s2) as (b & -> & C2 & D2).
  assert (a = b) as ->; [|reflexivity].
  destruct a as [da ca], b as [db cb]. cbn [disk console] in *.
  f_equal; [|congruence].
  apply map_eq. intros q. rewrite D1, D2.
  destruct (under ["extract"] q) as [[|c r]|] eqn:U; [done| |by apply Hsame].
  apply under_Some in U as ->.
  assert (G : forall s, tree (disk s) ->
            (if exists_at (disk s) ["extract"] then None
             else disk s !! (["extract"] ++ c :: r)) = None).
  { intros s T. unfold exists_at. cbn [stat].
    destruct (disk s !! ["extract"]) eqn:E; [done|].
    by apply (tree_closed ["extract"] (disk s) T). }
  by rewrite !G.
Qed.

Lemma run_stays_in_its_directories_witness :
  disk (final_state (run Sample.linux_x64 Sample.interrupted)) !! ["package.json"] =
    Some (EFile 420 [x7b; x7d]).
Proof.
  etrans.
  - apply (run_stays_in_its_directories Sample.linux_x64 Sample.interrupted
             ["package.json"]); reflexivity.
  - reflexivity.
Defined.

Lemma stale_staging_is_ignored_witness :
  disk Sample.interrupted !! ["extract"; "junk"] = Some (EFile 420 [x00]) /\
  run Sample.linux_x64 Sample.interrupted = run Sample.linux_x64 Sample.clean.
Proof.
  split; [reflexivity|].
  apply (stale_staging_is_ignored Sample.linux_x64
           "https://static.rust-lang.org/dist/rust-1.92.0-x86_64-unknown-linux-gnu.tar.xz").
  - evaluate.
  - apply (bool_decide_unpack _). vm_cast_no_check I.
  - apply (bool_decide_unpack _). vm_cast_no_check I.
  - intros q Hq. unfold Sample.interrupted, Sample.clean. cbn [disk list_to_map foldr].
    destruct (decide (q = ["package.json"])) as [->|Hne].
    + by rewrite !lookup_insert_eq.
    + rewrite !(lookup_insert_ne _ ["package.json"]) by done.
      rewrite !lookup_insert_ne; [done|..]; intros <-; discriminate.
  - reflexivity.
Defined.


